(** * The local filesystem backend of the runner

    A shallow embedding of [runner/internal/backend/local/backend.go]:
    the facade [Local] with its lifecycle operations ([Init], [MasterJob],
    [UpdateState], [CheckStop], [Secrets]) and the constructor registered
    under the name "local".

    The facade is thin I/O orchestration, so the embedding threads an
    explicit [World] (the storage tree, the disk seen through package [os],
    injected I/O faults and a trace of the calls issued) through a small
    monad in which a Go run-time panic is a result of its own. *)

From Stdlib Require Import String Ascii.
From stdpp Require Import base option list sorting gmap strings.

Set Default Proof Using "Type".

(** ** Go values *)

(** Go [error] values.  [Wrapped] is what [gerrors.Wrap] builds around an
    error: the same error, tagged with the call site. *)
Inductive error : Type :=
| ErrNotExist (p : string)
| ErrIO (msg : string)
| ErrYaml (msg : string)
| Wrapped (e : error).

Definition gerrors_Wrap (e : error) : error := Wrapped e.

(** A Go pair [(value, err)] in which the value is only meaningful when
    [err == nil]. *)
Inductive res (A : Type) : Type :=
| Ok (a : A)
| Err (e : error).
Arguments Ok {A} a.
Arguments Err {A} e.

(** A Go slice of strings: the backing array from the slice's first element
    on (its length is the capacity) and the slice's length. *)
Record slice : Type := mkSlice { s_arr : list string; s_len : nat }.

Definition s_cap (s : slice) : nat := length (s_arr s).
Definition s_elems (s : slice) : list string := take (s_len s) (s_arr s).

(** [s[:hi]]: legal up to the capacity, a run-time panic beyond it. *)
Definition reslice_to (s : slice) (hi : nat) : option slice :=
  if decide (hi ≤ s_cap s) then Some (mkSlice (s_arr s) hi) else None.

(** ** Package [strings] *)

(** [strings.HasPrefix s prefix]. *)
Fixpoint HasPrefix (s prefix : string) : bool :=
  match prefix, s with
  | EmptyString, _ => true
  | String _ _, EmptyString => false
  | String a prefix', String b s' =>
      if Ascii.eqb a b then HasPrefix s' prefix' else false
  end.

(** [strings.ReplaceAll s old new] for a non-empty [old] (the only call of
    the facade passes "l;"): the occurrences of [old] are found left to
    right and do not overlap.  [skip] counts the characters of a matched
    occurrence that are still to be dropped. *)
Fixpoint ReplaceAll_from (skip : nat) (s old new : string) : string :=
  match s with
  | EmptyString => EmptyString
  | String c s' =>
      match skip with
      | S k => ReplaceAll_from k s' old new
      | O =>
          if HasPrefix s old
          then new +:+ ReplaceAll_from (String.length old - 1) s' old new
          else String c (ReplaceAll_from 0 s' old new)
      end
  end.

Definition ReplaceAll (s old new : string) : string :=
  ReplaceAll_from 0 s old new.

(** [strings.Contains s substr]. *)
Fixpoint Contains (s substr : string) : bool :=
  match s with
  | EmptyString => HasPrefix s substr
  | String _ s' => HasPrefix s substr || Contains s' substr
  end.

(** ** The world the facade runs in *)

(** Calls on [LocalStorage]. *)
Inductive st_op : Type :=
| OpGetFile (p : string)
| OpPutFile (p : string) (contents : string)
| OpListFile (prefix : string)
| OpRenameFile (from to : string).

(** Calls on packages [os], [io] and [ioutil]. *)
Inductive os_op : Type :=
| OsStat (p : string)
| OsOpen (p : string)
| OsReadAll (p : string)
| OsReadDir (p : string)
| OsReadFile (p : string).

(** What [os.ReadDir] tells about an entry, as far as the facade asks. *)
Record DirEntry : Type := mkDirEntry { Name : string; IsDir : bool }.

Inductive node : Type :=
| RegFile (body : string)
| Directory (entries : list DirEntry).

Inductive event : Type :=
| EvStorage (o : st_op)
| EvOs (o : os_op)
| EvFetchSecret (templatePath : string) (secrets : gmap string string)
| EvPrintln (tag : string) (e : error).

(** [files] is the tree below the storage root, by relative path; [disk] is
    what package [os] sees, by the path handed to it.  [st_fault] and
    [os_fault] inject an I/O failure into a call; [list_spare] is the unused
    tail of the backing array of the slice [ListFile] returns.  A write that
    fails is not atomic: [put_residue p contents] is what it leaves at [p]
    (nothing new, or a partial file).  [trace] holds the calls issued so
    far, the latest first. *)
Record World : Type := mkWorld {
  home : string;
  files : gmap string string;
  list_spare : list string;
  st_fault : st_op → option error;
  put_residue : string → string → option string;
  disk : gmap string node;
  os_fault : os_op → option error;
  trace : list event }.

Definition log (e : event) (w : World) : World :=
  mkWorld (home w) (files w) (list_spare w) (st_fault w) (put_residue w) (disk w)
          (os_fault w) (e :: trace w).

Definition set_files (fs : gmap string string) (w : World) : World :=
  mkWorld (home w) fs (list_spare w) (st_fault w) (put_residue w) (disk w)
          (os_fault w) (trace w).

(** The calls of a run in the order they were issued. *)
Definition issued (w0 w : World) : list event :=
  rev (take (length (trace w) - length (trace w0)) (trace w)).

(** ** The monad of facade operations *)

Inductive outcome (A : Type) : Type :=
| Done (a : A) (w : World)
| Panicked (w : World).
Arguments Done {A} a w.
Arguments Panicked {A} w.

Definition M (A : Type) : Type := World → outcome A.

Definition ret {A} (a : A) : M A := fun w => Done a w.

Definition bind {A B} (c : M A) (k : A → M B) : M B :=
  fun w => match c w with
           | Done a w' => k a w'
           | Panicked w' => Panicked w'
           end.

Definition panic {A} : M A := fun w => Panicked w.

Definition emit (e : event) : M unit := fun w => Done tt (log e w).

Notation "'let*' x ':=' c 'in' k" := (bind c (fun x => k))
  (at level 10, x pattern, c at level 100, k at level 200).

Definition final_world {A} (o : outcome A) : World :=
  match o with Done _ w => w | Panicked w => w end.

(** ** Storage *)

(** The handle of a file repository with a fixed root. *)
Record LocalStorage : Type := mkLocalStorage { basepath : string }.

(** Modelled from the spec: [NewLocalStorage], whose source (storage.go) is
    not part of this file set.  The spec describes a narrow file repository
    over a fixed root. *)
Definition NewLocalStorage (root : string) : LocalStorage :=
  mkLocalStorage root.

Definition st_call (o : st_op) : M (option error) :=
  fun w => Done (st_fault w o) (log (EvStorage o) w).

(** Modelled from the spec: [LocalStorage.GetFile] returns the full contents
    of the file, fails with NotFound when it is absent and with an I/O error
    otherwise. *)
Definition GetFile (s : LocalStorage) (p : string) : M (res string) :=
  let* flt := st_call (OpGetFile p) in
  fun w =>
    match flt with
    | Some e => Done (Err e) w
    | None =>
        match files w !! p with
        | Some contents => Done (Ok contents) w
        | None => Done (Err (ErrNotExist p)) w
        end
    end.

(** Modelled from the spec: [LocalStorage.PutFile] writes the contents,
    replacing any prior file.  Atomicity is best effort only: a write that
    fails may leave a partial file at the path. *)
Definition PutFile (s : LocalStorage) (p contents : string)
  : M (option error) :=
  let* flt := st_call (OpPutFile p contents) in
  fun w =>
    match flt with
    | Some e =>
        match put_residue w p contents with
        | Some partial => Done (Some e) (set_files (<[p := partial]> (files w)) w)
        | None => Done (Some e) w
        end
    | None => Done None (set_files (<[p := contents]> (files w)) w)
    end.

(** The regular files whose relative path begins with [prefix], in
    lexicographic (bytewise) order. *)
Definition listing (fs : gmap string string) (prefix : string)
  : list string :=
  merge_sort String.le
    (filter (λ p, HasPrefix p prefix = true) (elements (dom fs))).

(** Modelled from the spec: [LocalStorage.ListFile] enumerates the regular
    files whose relative path begins with the prefix, in lexicographic
    order; a prefix nothing lives under gives the empty sequence.  The spec
    fixes the elements of the sequence, not the capacity of the slice that
    holds them: [list_spare] is what lies behind them. *)
Definition ListFile (s : LocalStorage) (prefix : string) : M (res slice) :=
  let* flt := st_call (OpListFile prefix) in
  fun w =>
    match flt with
    | Some e => Done (Err e) w
    | None =>
        let found := listing (files w) prefix in
        Done (Ok (mkSlice (found ++ list_spare w) (length found))) w
    end.

(** Modelled from the spec: [LocalStorage.RenameFile] moves a file within
    the root and fails with NotFound when the source is missing.  As with
    the host's rename, a file already at the target is replaced, and a file
    renamed to itself stays. *)
Definition RenameFile (s : LocalStorage) (from to : string)
  : M (option error) :=
  let* flt := st_call (OpRenameFile from to) in
  fun w =>
    match flt with
    | Some e => Done (Some e) w
    | None =>
        match files w !! from with
        | None => Done (Some (ErrNotExist from)) w
        | Some contents =>
            Done None (set_files (<[to := contents]> (delete from (files w))) w)
        end
    end.

(** ** Packages [os], [io] and [ioutil] *)

Definition os_call (o : os_op) : M (option error) :=
  fun w => Done (os_fault w o) (log (EvOs o) w).

(** [os.Stat]: the facade only looks at the error. *)
Definition os_Stat (p : string) : M (res node) :=
  let* flt := os_call (OsStat p) in
  fun w =>
    match flt with
    | Some e => Done (Err e) w
    | None =>
        match disk w !! p with
        | Some n => Done (Ok n) w
        | None => Done (Err (ErrNotExist p)) w
        end
    end.

(** [os.Open]: the handle is the path together with the node it names. *)
Definition os_Open (p : string) : M (res (string * node)) :=
  let* flt := os_call (OsOpen p) in
  fun w =>
    match flt with
    | Some e => Done (Err e) w
    | None =>
        match disk w !! p with
        | Some n => Done (Ok (p, n)) w
        | None => Done (Err (ErrNotExist p)) w
        end
    end.

(** [io.ReadAll] on an open file. *)
Definition io_ReadAll (file : string * node) : M (res string) :=
  let* flt := os_call (OsReadAll (fst file)) in
  fun w =>
    match flt with
    | Some e => Done (Err e) w
    | None =>
        match snd file with
        | RegFile body => Done (Ok body) w
        | Directory _ => Done (Err (ErrIO "is a directory")) w
        end
    end.

(** [os.ReadDir]. *)
Definition os_ReadDir (p : string) : M (res (list DirEntry)) :=
  let* flt := os_call (OsReadDir p) in
  fun w =>
    match flt with
    | Some e => Done (Err e) w
    | None =>
        match disk w !! p with
        | Some (Directory entries) => Done (Ok entries) w
        | Some (RegFile _) => Done (Err (ErrIO "not a directory")) w
        | None => Done (Err (ErrNotExist p)) w
        end
    end.

(** [ioutil.ReadFile]. *)
Definition ioutil_ReadFile (p : string) : M (res string) :=
  let* flt := os_call (OsReadFile p) in
  fun w =>
    match flt with
    | Some e => Done (Err e) w
    | None =>
        match disk w !! p with
        | Some (RegFile body) => Done (Ok body) w
        | Some (Directory _) => Done (Err (ErrIO "is a directory")) w
        | None => Done (Err (ErrNotExist p)) w
        end
    end.

(** [fmt.Println(tag, err.Error())]. *)
Definition fmt_Println (tag : string) (e : error) : M unit :=
  emit (EvPrintln tag e).

(** ** What the facade imports *)

(** Package [models] is not part of this file set.  The facade reads these
    fields of a [Job] and calls these path helpers; they are taken as given. *)
Class Models : Type := {
  Job : Type;
  Requirements : Type;
  JobID : Job → string;
  MasterJobID : Job → string;
  RepoUserName : Job → string;
  RepoName : Job → string;
  JobRequirements : Job → Requirements;
  RepoHostNameWithPort : Job → string;
  JobFilepath : Job → string;
  JobHeadFilepathPrefix : Job → string;
  JobHeadFilepath : Job → string }.

(** [models.State]: the facade only follows its [Job] pointer. *)
Record State `{Models} : Type := mkState { StateJob : option Job }.
Arguments mkState {_} _.
Arguments StateJob {_} _.

(** The backend config document. *)
Record File : Type := mkFile { FilePath : string }.

(** [yaml.Marshal] and [yaml.Unmarshal] at the types the facade uses them.
    Decoding into a [State] starts from the value the target already holds
    and may change it even when it reports an error. *)
Class Yaml `{Models} : Type := {
  Marshal_Job : option Job → res string;
  Unmarshal_Job : string → Job * option error;
  Unmarshal_State : string → option State → option State * option error;
  Unmarshal_File : string → File → File * option error }.

(** [filepath.Join]. *)
Class Filepath : Type := { Join : list string → string }.

(** The credential store handle. *)
Record ClientSecret : Type := mkClientSecret { secretpath : string }.

(** Modelled from the spec: [NewClientSecret], whose source is not part of
    this file set; the store reads from a protected subtree of its root. *)
Definition NewClientSecret (root : string) : ClientSecret :=
  mkClientSecret root.

(** [ClientSecret.fetchSecret]: it owns no cache and re-reads on every call,
    so it is a function of the world it is called in. *)
Class CredentialStore : Type := {
  fetchSecret : ClientSecret → string → gmap string string → World →
                option (gmap string string) * option error }.

(** Modelled from the spec: the constant [consts.DSTACK_DIR_PATH]; the
    working root is the fixed [<home>/.dstack]. *)
Definition DSTACK_DIR_PATH : string := ".dstack".

(** Modelled from the spec: the constant [states.Stopping], the literal
    status [Stopping]. *)
Definition Stopping : string := "Stopping".

(** [common.HomeDir()]. *)
Definition HomeDir : M string := fun w => Done (home w) w.

(** ** The facade *)

Section Facade.
Context `{YM : Yaml} `{FP : Filepath} `{CS : CredentialStore}.

Record Local : Type := mkLocal {
  path : string;
  runnerID : string;
  state : option State;
  storage : LocalStorage;
  cliSecret : ClientSecret }.

(** [l.state] and [l.state.Job] are pointers: following a nil one panics. *)
Definition state_of (l : Local) : M State :=
  match state l with Some st => ret st | None => panic end.

Definition job_of (l : Local) : M Job :=
  let* st := state_of l in
  match StateJob st with Some j => ret j | None => panic end.

Definition New : M Local :=
  let* h := HomeDir in
  let path := Join [h; DSTACK_DIR_PATH] in
  ret (mkLocal path "" None (NewLocalStorage path) (NewClientSecret path)).

(** The constructor that [init] registers under the name "local". *)
Definition local_constructor (pathConfig : string)
  : M (option Local * option error) :=
  let file := mkFile "" in
  let* r := ioutil_ReadFile pathConfig in
  match r with
  | Err e =>
      let* _ := fmt_Println "[ERROR]" e in
      ret (None, Some e)
  | Ok theConfig =>
      match Unmarshal_File theConfig file with
      | (_, Some e) =>
          let* _ := fmt_Println "[ERROR]" e in
          ret (None, Some e)
      | (_, None) =>
          let* l := New in
          ret (Some l, None)
      end
  end.

Definition Init (l : Local) (ID : string) : M (Local * option error) :=
  let l := mkLocal (path l) ID (state l) (storage l) (cliSecret l) in
  let pathRunner := Join ["runners"; ID +:+ ".yaml"] in
  let* r := GetFile (storage l) pathRunner in
  match r with
  | Err e => ret (l, Some (gerrors_Wrap e))
  | Ok contents =>
      let '(st, err) := Unmarshal_State contents (state l) in
      let l := mkLocal (path l) (runnerID l) st (storage l) (cliSecret l) in
      match err with
      | Some e => ret (l, Some (gerrors_Wrap e))
      | None => ret (l, None)
      end
  end.

Definition Local_Job (l : Local) : M (option Job) :=
  let* st := state_of l in
  let* _ := job_of l in
  ret (StateJob st).

Definition MasterJob (l : Local) : M (option Job) :=
  let* j := job_of l in
  let* r := GetFile (storage l)
              (Join ["jobs"; RepoUserName j; RepoName j;
                     MasterJobID j +:+ ".yaml"]) in
  match r with
  | Err _ => ret None
  | Ok contents =>
      match Unmarshal_Job contents with
      | (_, Some _) => ret None
      | (masterJob, None) => ret (Some masterJob)
      end
  end.

Definition Local_Requirements (l : Local) : M Requirements :=
  let* j := job_of l in
  ret (JobRequirements j).

(** The body of [for _, file := range ... { RenameFile(file, to) }]: it
    stops at the first failing rename. *)
Fixpoint rename_each (s : LocalStorage) (fs : list string) (to : string)
  : M (option error) :=
  match fs with
  | [] => ret None
  | file :: fs' =>
      let* err := RenameFile s file to in
      match err with
      | Some e => ret (Some (gerrors_Wrap e))
      | None => rename_each s fs' to
      end
  end.

Definition UpdateState (l : Local) : M (option error) :=
  let* st := state_of l in
  match Marshal_Job (StateJob st) with
  | Err e => ret (Some (gerrors_Wrap e))
  | Ok contents =>
      let* j := job_of l in
      let jobPath := JobFilepath j in
      let* err := PutFile (storage l) jobPath contents in
      match err with
      | Some e => ret (Some (gerrors_Wrap e))
      | None =>
          let* r := ListFile (storage l) (JobHeadFilepathPrefix j) in
          match r with
          | Err e => ret (Some (gerrors_Wrap e))
          | Ok files =>
              let jobHeadFilepath := JobHeadFilepath j in
              match reslice_to files 1 with
              | None => panic
              | Some first => rename_each (storage l) (s_elems first)
                                          jobHeadFilepath
              end
          end
      end
  end.

Definition CheckStop (l : Local) : M (bool * option error) :=
  let pathStateFile := "runners/m;" +:+ runnerID l +:+ ";status" in
  let* st := os_Stat (Join [path l; pathStateFile]) in
  match st with
  | Ok _ =>
      let* f := os_Open (Join [path l; pathStateFile]) in
      match f with
      | Err e => ret (false, Some (gerrors_Wrap e))
      | Ok file =>
          let* b := io_ReadAll file in
          match b with
          | Err e => ret (false, Some (gerrors_Wrap e))
          | Ok body =>
              if String.eqb body Stopping
              then ret (true, None)
              else ret (false, None)
          end
      end
  | Err _ => ret (false, None)
  end.

Definition Shutdown (l : Local) : M (option error) := ret None.

Definition GetJobByPath (l : Local) (p : string)
  : M (option Job * option error) :=
  let* r := GetFile (storage l) p in
  match r with
  | Err e => ret (None, Some (gerrors_Wrap e))
  | Ok contents =>
      match Unmarshal_Job contents with
      | (_, Some e) => ret (None, Some (gerrors_Wrap e))
      | (job, None) => ret (Some job, None)
      end
  end.

(** One round of the loop of [Secrets] over the directory entries. *)
Definition secrets_step (j : Job) (secrets : gmap string string)
    (file : DirEntry) : gmap string string :=
  if IsDir file then secrets
  else if HasPrefix (Name file) "l;" then
    let clearName := ReplaceAll (Name file) "l;" "" in
    <[clearName := RepoHostNameWithPort j +:+ "/" +:+ RepoUserName j +:+ "/"
                   +:+ RepoName j +:+ "/" +:+ clearName]> secrets
  else secrets.

Definition collect_secrets (j : Job) (listSecrets : list DirEntry)
  : gmap string string :=
  foldl (secrets_step j) ∅ listSecrets.

Definition call_fetchSecret (c : ClientSecret) (templatePath : string)
    (secrets : gmap string string)
  : M (option (gmap string string) * option error) :=
  let* _ := emit (EvFetchSecret templatePath secrets) in
  fun w => Done (fetchSecret c templatePath secrets w) w.

Definition Secrets (l : Local)
  : M (option (gmap string string) * option error) :=
  let* j := job_of l in
  let templatePath := "secrets/" +:+ RepoHostNameWithPort j +:+ "/"
                      +:+ RepoUserName j +:+ "/" +:+ RepoName j in
  let* st := os_Stat (Join [path l; templatePath]) in
  match st with
  | Err _ => ret (Some ∅, None)
  | Ok _ =>
      let* r := os_ReadDir (Join [path l; templatePath]) in
      match r with
      | Err e => ret (None, Some (gerrors_Wrap e))
      | Ok listSecrets =>
          call_fetchSecret (cliSecret l) templatePath
                           (collect_secrets j listSecrets)
      end
  end.

Definition Bucket (l : Local) : M string := ret "".

Definition ListSubDir (l : Local) (dir : string) : M (res slice) :=
  ListFile (storage l) dir.

(** A run of [UpdateState] calls; between two calls the runner replaces the
    [Job] the state points to.  The run stops at the first error. *)
Definition with_job (l : Local) (j : Job) : Local :=
  mkLocal (path l) (runnerID l) (Some (mkState (Some j))) (storage l)
          (cliSecret l).

Fixpoint UpdateState_run (l : Local) (js : list Job) : M (option error) :=
  match js with
  | [] => ret None
  | j :: js' =>
      let* err := UpdateState (with_job l j) in
      match err with
      | Some e => ret (Some e)
      | None => UpdateState_run l js'
      end
  end.

End Facade.

(** ** Vocabulary of the statements *)

(** No storage call meets an injected failure. *)
Definition st_fault_free (w : World) : Prop := ∀ o, st_fault w o = None.

(** No call on package [os] meets an injected failure. *)
Definition os_fault_free (w : World) : Prop := ∀ o, os_fault w o = None.

Section Vocabulary.
Context `{YM : Yaml} `{FP : Filepath}.

(** The job lives at the head prefix [p]: its head file name begins with
    [p], its canonical document does not, and it serializes. *)
Definition placed_at (p : string) (j : Job) : Prop :=
  JobHeadFilepathPrefix j = p ∧
  HasPrefix (JobHeadFilepath j) p = true ∧
  HasPrefix (JobFilepath j) p = false ∧
  is_Some (match Marshal_Job (Some j) with Ok c => Some c | Err _ => None end).

(** The head file name after a run over [js] that started from [f]. *)
Definition last_head (f : string) (js : list Job) : string :=
  match last js with Some j => JobHeadFilepath j | None => f end.

(** The path [CheckStop] hands to package [os]. *)
Definition stop_file (root ID : string) : string :=
  Join [root; "runners/m;" +:+ ID +:+ ";status"].

(** The relative and the full path of the secret directory of a job. *)
Definition secrets_template (j : Job) : string :=
  "secrets/" +:+ RepoHostNameWithPort j +:+ "/" +:+ RepoUserName j +:+ "/"
  +:+ RepoName j.

Definition secrets_dir (root : string) (j : Job) : string :=
  Join [root; secrets_template j].

(** The path of the master job's document. *)
Definition master_file (j : Job) : string :=
  Join ["jobs"; RepoUserName j; RepoName j; MasterJobID j +:+ ".yaml"].

(** The world after a successful write of the document, a listing and the
    rename of [f]. *)
Definition after_update (w : World) (j : Job) (contents f c : string)
  : World :=
  mkWorld (home w)
    (<[JobHeadFilepath j := c]>
       (delete f (<[JobFilepath j := contents]> (files w))))
    (list_spare w) (st_fault w) (put_residue w) (disk w) (os_fault w)
    (EvStorage (OpRenameFile f (JobHeadFilepath j))
     :: EvStorage (OpListFile (JobHeadFilepathPrefix j))
     :: EvStorage (OpPutFile (JobFilepath j) contents) :: trace w).

(** The world at the moment the listing has been taken. *)
Definition after_listing (w : World) (j : Job) (contents : string)
  : World :=
  mkWorld (home w) (<[JobFilepath j := contents]> (files w))
    (list_spare w) (st_fault w) (put_residue w) (disk w) (os_fault w)
    (EvStorage (OpListFile (JobHeadFilepathPrefix j))
     :: EvStorage (OpPutFile (JobFilepath j) contents) :: trace w).

End Vocabulary.

(** ** A concrete setting

    An instance of what the facade imports, laid out as the directory layout
    of the backend prescribes, on which the operations can be run. *)

Module Sample.

Record job : Type := mkJob {
  job_id : string;
  master_job_id : string;
  repo_user_name : string;
  repo_name : string;
  repo_host : string;
  status : string }.

Definition jobs_dir (j : job) : string :=
  "jobs/" +:+ repo_user_name j +:+ "/" +:+ repo_name j +:+ "/".

#[global] Instance models : Models := {|
  Job := job;
  Requirements := unit;
  JobID := job_id;
  MasterJobID := master_job_id;
  RepoUserName := repo_user_name;
  RepoName := repo_name;
  JobRequirements := λ _, tt;
  RepoHostNameWithPort := repo_host;
  JobFilepath := λ j, jobs_dir j +:+ job_id j +:+ ".yaml";
  JobHeadFilepathPrefix := λ j, jobs_dir j +:+ "l;" +:+ job_id j +:+ ";";
  JobHeadFilepath :=
    λ j, jobs_dir j +:+ "l;" +:+ job_id j +:+ ";" +:+ status j |}.

(** [drop_prefix n s]: [s] without its first [n] characters. *)
Fixpoint drop_prefix (n : nat) (s : string) : string :=
  match n, s with
  | S k, String _ s' => drop_prefix k s'
  | _, _ => s
  end.

(** A one-line document format: a key, a colon and the value. *)
Definition field (key doc : string) : option string :=
  if HasPrefix doc (key +:+ ": ")
  then Some (drop_prefix (String.length key + 2) doc)
  else None.

Definition zero_job : job := mkJob "" "" "" "" "" "".

#[global] Instance yaml : Yaml := {|
  Marshal_Job := λ oj,
    match oj with
    | Some j => Ok ("job_id: " +:+ job_id j +:+ ";" +:+ status j)
    | None => Ok "null"
    end;
  Unmarshal_Job := λ doc,
    match field "job_id" doc with
    | Some v => (mkJob v "" "" "" "" "", None)
    | None => (zero_job, Some (ErrYaml "cannot unmarshal into models.Job"))
    end;
  Unmarshal_State := λ doc old,
    match field "job" doc with
    | Some v => (Some (mkState (Some (mkJob v "" "" "" "" ""))), None)
    | None => (old, Some (ErrYaml "cannot unmarshal into models.State"))
    end;
  Unmarshal_File := λ doc old,
    match field "path" doc with
    | Some v => (mkFile v, None)
    | None => (old, Some (ErrYaml "cannot unmarshal into local.File"))
    end |}.

(** A serializer that refuses a job without an id (not an instance: it is
    named where it is meant). *)
Definition strict_yaml : Yaml := {|
  Marshal_Job := λ oj,
    match oj with
    | Some j =>
        if String.eqb (job_id j) ""
        then Err (ErrYaml "cannot marshal a job without an id")
        else Ok ("job_id: " +:+ job_id j +:+ ";" +:+ status j)
    | None => Ok "null"
    end;
  Unmarshal_Job := Unmarshal_Job (Yaml := yaml);
  Unmarshal_State := Unmarshal_State (Yaml := yaml);
  Unmarshal_File := Unmarshal_File (Yaml := yaml) |}.

(** The non-empty elements separated by a slash (on clean elements
    [filepath.Join] does no more). *)
Fixpoint join_slash (elems : list string) : string :=
  match elems with
  | [] => ""
  | e :: rest =>
      if String.eqb e "" then join_slash rest
      else match join_slash rest with
           | EmptyString => e
           | tl => e +:+ "/" +:+ tl
           end
  end.

#[global] Instance filepath : Filepath := {| Join := join_slash |}.

(** A credential store that resolves every listed secret to its path. *)
#[global] Instance credentials : CredentialStore := {|
  fetchSecret := λ _ _ secrets _, (Some secrets, None) |}.

Definition no_st_fault : st_op → option error := λ _, None.
Definition no_residue : string → string → option string := λ _ _, None.
Definition no_os_fault : os_op → option error := λ _, None.

Definition J1 (st : string) : job :=
  mkJob "J1" "M9" "alice" "proj" "github.com:22" st.

Definition facade (j : job) : Local :=
  mkLocal "/home/alice/.dstack" "R1" (Some (mkState (Some j)))
          (NewLocalStorage "/home/alice/.dstack")
          (NewClientSecret "/home/alice/.dstack").

(** A storage tree holding the given files and nothing on the [os] side. *)
Definition tree (fs : gmap string string) (spare : list string) : World :=
  mkWorld "/home/alice" fs spare no_st_fault no_residue ∅ no_os_fault [].

(** A disk holding the given nodes and an empty storage tree. *)
Definition on_disk (d : gmap string node) (flt : os_op → option error)
  : World :=
  mkWorld "/home/alice" ∅ [] no_st_fault no_residue d flt [].

Definition stop_path : string := "/home/alice/.dstack/runners/m;R1;status".

Definition secrets_path : string :=
  "/home/alice/.dstack/secrets/github.com:22/alice/proj".

End Sample.


(** * Properties *)

(** ** The listing of a storage tree *)

Section Listing.
Implicit Types (fs : gmap string string) (p x : string).

Lemma elem_of_listing fs p x :
  x ∈ listing fs p ↔ is_Some (fs !! x) ∧ HasPrefix x p = true.
Proof.
  unfold listing. rewrite merge_sort_Permutation.
  rewrite list_elem_of_filter, elem_of_elements, elem_of_dom. tauto.
Qed.

Lemma NoDup_listing fs p : NoDup (listing fs p).
Proof.
  unfold listing. rewrite merge_sort_Permutation.
  apply NoDup_filter, NoDup_elements.
Qed.

Lemma Sorted_listing fs p : StronglySorted String.le (listing fs p).
Proof. apply (StronglySorted_merge_sort _). Qed.

(** The listing only depends on which paths below the prefix are present. *)
Lemma listing_ext fs1 fs2 p :
  (∀ x, HasPrefix x p = true → is_Some (fs1 !! x) ↔ is_Some (fs2 !! x)) →
  listing fs1 p = listing fs2 p.
Proof.
  intros Hext.
  apply (Sorted_unique String.le).
  - apply StronglySorted_Sorted, Sorted_listing.
  - apply StronglySorted_Sorted, Sorted_listing.
  - apply NoDup_Permutation; auto using NoDup_listing.
    intros x. rewrite !elem_of_listing.
    split; intros [Hx Hp]; (split; [by apply (Hext x Hp)|done]).
Qed.

Lemma listing_singleton fs p x :
  (∀ y, is_Some (fs !! y) ∧ HasPrefix y p = true ↔ y = x) →
  listing fs p = [x].
Proof.
  intros Hx.
  assert (Hperm : listing fs p ≡ₚ [x]).
  { apply NoDup_Permutation.
    - apply NoDup_listing.
    - apply NoDup_singleton.
    - intros y. rewrite elem_of_listing, list_elem_of_singleton. apply Hx. }
  by apply Permutation_singleton_r in Hperm.
Qed.

Lemma listing_head_least fs p x rest y :
  listing fs p = x :: rest → y ∈ rest → String.le x y.
Proof.
  intros Hl Hy. pose proof (Sorted_listing fs p) as Hs.
  rewrite Hl in Hs. inversion Hs as [|? ? _ Hall]; subst.
  by eapply Forall_forall in Hall.
Qed.

Lemma listing_head_fresh fs p x rest : listing fs p = x :: rest → x ∉ rest.
Proof.
  intros Hl. pose proof (NoDup_listing fs p) as Hn.
  rewrite Hl in Hn. by apply NoDup_cons in Hn as [? _].
Qed.

End Listing.

(** ** Runs and their traces *)

Lemma issued_app (w0 w : World) (evs : list event) :
  trace w = evs ++ trace w0 → issued w0 w = rev evs.
Proof.
  intros Ht. unfold issued. rewrite Ht, length_app.
  replace (length evs + length (trace w0) - length (trace w0))
    with (length evs) by lia.
  by rewrite take_app_length.
Qed.

(** Unfold the monad and the modelled calls of a run. *)
Ltac run :=
  repeat (progress (unfold bind, ret, panic, emit, st_call, os_call,
                           GetFile, PutFile, ListFile, RenameFile,
                           os_Stat, os_Open, io_ReadAll, os_ReadDir,
                           ioutil_ReadFile, fmt_Println, HomeDir; simpl)).

(** The same for a world whose calls meet no failure, known by [H]. *)
Ltac run_free H :=
  run; repeat (progress (rewrite ?H; run)).

(** ** UpdateState *)

Section UpdateStateFacts.
Context `{YM : Yaml} `{FP : Filepath} `{CS : CredentialStore}.
Implicit Types (l : Local) (w : World) (j : Job).

Lemma UpdateState_step l w j contents f rest :
  state l = Some (mkState (Some j)) →
  Marshal_Job (Some j) = Ok contents →
  st_fault_free w →
  listing (<[JobFilepath j := contents]> (files w)) (JobHeadFilepathPrefix j)
    = f :: rest →
  ∃ c, <[JobFilepath j := contents]> (files w) !! f = Some c ∧
       UpdateState l w = Done None (after_update w j contents f c).
Proof.
  intros Hst Hm Hff Hl.
  assert (Hin : f ∈ listing (<[JobFilepath j := contents]> (files w))
                      (JobHeadFilepathPrefix j)) by (rewrite Hl; left).
  apply elem_of_listing in Hin as [[c Hc] _].
  exists c. split; [done|].
  unfold UpdateState, job_of, state_of. rewrite Hst. run.
  rewrite Hm. run_free Hff. rewrite Hl. run_free Hff. by rewrite Hc.
Qed.

(** With nothing listed, [files[:1]] decides: beyond the capacity it panics,
    within it the slot behind the slice is renamed. *)
Lemma UpdateState_nothing_listed l w j contents :
  state l = Some (mkState (Some j)) →
  Marshal_Job (Some j) = Ok contents →
  st_fault_free w →
  listing (<[JobFilepath j := contents]> (files w)) (JobHeadFilepathPrefix j)
    = [] →
  match list_spare w with
  | [] => UpdateState l w = Panicked (after_listing w j contents)
  | slot :: _ =>
      ∃ w', final_world (UpdateState l w) = w' ∧
            issued w w' =
              [EvStorage (OpPutFile (JobFilepath j) contents);
               EvStorage (OpListFile (JobHeadFilepathPrefix j));
               EvStorage (OpRenameFile slot (JobHeadFilepath j))]
  end.
Proof.
  intros Hst Hm Hff Hl.
  unfold UpdateState, job_of, state_of. rewrite Hst. run.
  rewrite Hm. run_free Hff. rewrite Hl. run_free Hff.
  destruct (list_spare w) as [|slot spare] eqn:Hsp; run_free Hff; [done|].
  eexists. split; [done|].
  destruct (_ !! slot); simpl;
    by apply (issued_app _ _ [_; _; _]).
Qed.

Lemma listing_put_other (fs : gmap string string) (p q contents : string) :
  HasPrefix q p = false →
  listing (<[q := contents]> fs) p = listing fs p.
Proof.
  intros Hq. apply listing_ext. intros x Hx.
  assert (q ≠ x) by (intros ->; congruence).
  by rewrite lookup_insert_ne.
Qed.

Lemma last_head_cons (f : string) j (js : list Job) :
  last_head f (j :: js) = last_head (JobHeadFilepath j) js.
Proof.
  unfold last_head. destruct js as [|j' js]; [done|].
  rewrite last_cons_cons.
  destruct (last (j' :: js)) eqn:Hlast; [done|].
  by apply last_None in Hlast.
Qed.

(** One call on a tree with a single head file. *)
Lemma UpdateState_single l w j contents f :
  state l = Some (mkState (Some j)) →
  Marshal_Job (Some j) = Ok contents →
  st_fault_free w →
  HasPrefix (JobHeadFilepath j) (JobHeadFilepathPrefix j) = true →
  HasPrefix (JobFilepath j) (JobHeadFilepathPrefix j) = false →
  listing (files w) (JobHeadFilepathPrefix j) = [f] →
  ∃ w', UpdateState l w = Done None w' ∧
        st_fault_free w' ∧
        issued w w' =
          [EvStorage (OpPutFile (JobFilepath j) contents);
           EvStorage (OpListFile (JobHeadFilepathPrefix j));
           EvStorage (OpRenameFile f (JobHeadFilepath j))] ∧
        files w' !! JobFilepath j = Some contents ∧
        listing (files w') (JobHeadFilepathPrefix j) = [JobHeadFilepath j].
Proof.
  intros Hst Hm Hff Hhead Hdoc Hl.
  set (p := JobHeadFilepathPrefix j) in *.
  assert (Hf : ∀ y, is_Some (files w !! y) ∧ HasPrefix y p = true ↔ y = f).
  { intros y. rewrite <- elem_of_listing, Hl. apply list_elem_of_singleton. }
  destruct (UpdateState_step l w j contents f []) as (c & Hc & Hrun); auto.
  { fold p. by rewrite listing_put_other. }
  exists (after_update w j contents f c).
  assert (Hne1 : JobHeadFilepath j ≠ JobFilepath j) by (intros Heq; congruence).
  assert (Hne2 : f ≠ JobFilepath j).
  { intros ->. destruct (proj2 (Hf (JobFilepath j)) eq_refl). congruence. }
  split_and!; [done|done|by apply (issued_app _ _ [_; _; _])|..]; simpl.
  - by rewrite lookup_insert_ne, lookup_delete_ne, lookup_insert_eq.
  - apply listing_singleton. intros y. split.
    + intros [Hy Hp].
      destruct (decide (y = JobHeadFilepath j)) as [|Hn]; [done|].
      rewrite lookup_insert_ne in Hy by done.
      destruct (decide (y = f)) as [->|Hnf].
      { rewrite lookup_delete_eq in Hy. by destruct Hy. }
      rewrite lookup_delete_ne, lookup_insert_ne in Hy by congruence.
      destruct Hnf. by apply Hf.
    + intros ->. split; [|done]. by rewrite lookup_insert_eq.
Qed.

(** C4.  On a tree whose head prefix holds exactly one file, a call of
    [UpdateState] first writes the serialized job to its canonical path and
    then renames that file to the head file name of the current job, after
    which the head prefix holds exactly the file of that name; and a run of
    any number of calls that starts from such a tree ends, without error, in
    a tree whose head prefix holds exactly one file, named after the job of
    the last call. *)
Theorem UpdateState_keeps_single_head :
  (∀ l w j contents f,
     state l = Some (mkState (Some j)) →
     Marshal_Job (Some j) = Ok contents →
     st_fault_free w →
     placed_at (JobHeadFilepathPrefix j) j →
     listing (files w) (JobHeadFilepathPrefix j) = [f] →
     ∃ w', UpdateState l w = Done None w' ∧
           issued w w' =
             [EvStorage (OpPutFile (JobFilepath j) contents);
              EvStorage (OpListFile (JobHeadFilepathPrefix j));
              EvStorage (OpRenameFile f (JobHeadFilepath j))] ∧
           files w' !! JobFilepath j = Some contents ∧
           listing (files w') (JobHeadFilepathPrefix j)
             = [JobHeadFilepath j]) ∧
  (∀ l w p f js,
     st_fault_free w →
     Forall (placed_at p) js →
     listing (files w) p = [f] →
     ∃ w', UpdateState_run l js w = Done None w' ∧
           listing (files w') p = [last_head f js]).
Proof.
  split.
  - intros l w j contents f Hst Hm Hff (_ & Hhead & Hdoc & _) Hl.
    destruct (UpdateState_single l w j contents f)
      as (w' & ? & _ & ? & ? & ?); eauto.
  - intros l w p f js Hff Hjs. revert w f Hff.
    induction Hjs as [|j js (Hp & Hhead & Hdoc & Hm) _ IH]; intros w f Hff Hl.
    + by exists w.
    + destruct (Marshal_Job (Some j)) as [contents|] eqn:Hc;
        [|by destruct Hm].
      subst p.
      destruct (UpdateState_single (with_job l j) w j contents f)
        as (w1 & Hrun & Hff1 & _ & _ & Hl1); auto.
      destruct (IH w1 (JobHeadFilepath j) Hff1 Hl1) as (w' & Hrun' & Hl').
      exists w'. rewrite last_head_cons. split; [|done].
      simpl. unfold bind at 1. by rewrite Hrun.
Qed.

(** C5, as the code has it.  On a tree whose head prefix lists two or more
    files, [UpdateState] issues one rename, of the lexicographically first
    of them to the head file name of the job: the file that was the first
    entry is afterwards found under the head file name, and no longer under
    its old name unless the two names are the same.  Every other listed file
    is still listed afterwards, and one whose name is not the head file name
    keeps its contents; one that bears the head file name is the target of
    the rename and is replaced by the renamed file. *)
Theorem UpdateState_renames_first_only l w j contents f g rest :
  state l = Some (mkState (Some j)) →
  Marshal_Job (Some j) = Ok contents →
  st_fault_free w →
  HasPrefix (JobFilepath j) (JobHeadFilepathPrefix j) = false →
  listing (files w) (JobHeadFilepathPrefix j) = f :: g :: rest →
  ∃ w', UpdateState l w = Done None w' ∧
        issued w w' =
          [EvStorage (OpPutFile (JobFilepath j) contents);
           EvStorage (OpListFile (JobHeadFilepathPrefix j));
           EvStorage (OpRenameFile f (JobHeadFilepath j))] ∧
        is_Some (files w !! f) ∧
        files w' !! JobHeadFilepath j = files w !! f ∧
        (f ≠ JobHeadFilepath j → files w' !! f = None) ∧
        ∀ x, x ∈ g :: rest →
             String.le f x ∧ x ≠ f ∧
             x ∈ listing (files w') (JobHeadFilepathPrefix j) ∧
             (x ≠ JobHeadFilepath j → files w' !! x = files w !! x).
Proof.
  intros Hst Hm Hff Hdoc Hl.
  set (p := JobHeadFilepathPrefix j) in *.
  destruct (UpdateState_step l w j contents f (g :: rest))
    as (c & Hc & Hrun); auto.
  { fold p. by rewrite listing_put_other. }
  assert (Hf : f ∈ listing (files w) p) by (rewrite Hl; left).
  apply elem_of_listing in Hf as [Hfsome Hfp].
  assert (Hfd : JobFilepath j ≠ f) by (intros <-; congruence).
  rewrite lookup_insert_ne in Hc by done.
  exists (after_update w j contents f c).
  split_and!; [done|by apply (issued_app _ _ [_; _; _])|done|..].
  - simpl. by rewrite lookup_insert_eq.
  - intros Hne. simpl. by rewrite lookup_insert_ne, lookup_delete_eq.
  - intros x Hx.
    assert (Hxf : x ≠ f).
    { intros ->. by apply (listing_head_fresh _ _ _ _ Hl). }
    assert (Hin : x ∈ listing (files w) p) by (rewrite Hl; by right).
    apply elem_of_listing in Hin as [Hsome Hxp].
    assert (Hxd : x ≠ JobFilepath j) by (intros ->; congruence).
    split_and!; [by eapply listing_head_least|done|..]; simpl.
    + apply elem_of_listing. split; [|done].
      destruct (decide (x = JobHeadFilepath j)) as [->|Hn].
      * by rewrite lookup_insert_eq.
      * by rewrite lookup_insert_ne, lookup_delete_ne, lookup_insert_ne.
    + intros Hn.
      by rewrite lookup_insert_ne, lookup_delete_ne, lookup_insert_ne.
Qed.

End UpdateStateFacts.

(** ** CheckStop and Init *)

Section LifecycleFacts.
Context `{YM : Yaml} `{FP : Filepath} `{CS : CredentialStore}.
Implicit Types (l : Local) (w : World) (j : Job).

(** Whatever it returns, [CheckStop] begins by asking [os.Stat] about the
    stop signal file of the recorded runner id. *)
Lemma CheckStop_consults l w :
  ∃ r w', CheckStop l w = Done r w' ∧
          head (issued w w')
            = Some (EvOs (OsStat (stop_file (path l) (runnerID l)))).
Proof.
  unfold CheckStop, stop_file. set (p := Join _). run.
  destruct (os_fault w (OsStat p)); run.
  { eexists _, _. split; [done|]. by erewrite (issued_app _ _ [_]). }
  destruct (disk w !! p) as [n|] eqn:Hd; run_free Hd.
  2: { eexists _, _. split; [done|]. by erewrite (issued_app _ _ [_]). }
  destruct (os_fault w (OsOpen p)); run_free Hd.
  { eexists _, _. split; [done|]. by erewrite (issued_app _ _ [_; _]). }
  destruct (os_fault w (OsReadAll p)); run_free Hd.
  { eexists _, _. split; [done|]. by erewrite (issued_app _ _ [_; _; _]). }
  destruct n as [body|entries]; run.
  - destruct (String.eqb body Stopping); run;
      (eexists _, _; split; [done|]; by erewrite (issued_app _ _ [_; _; _])).
  - eexists _, _. split; [done|]. by erewrite (issued_app _ _ [_; _; _]).
Qed.

(** C6.  [CheckStop] answers [(true, nil)] only when the stop signal file is
    there and holds exactly [Stopping], and it does so whenever the file is
    read without failure; it answers [(false, nil)] when the file is missing
    and when it holds anything else. *)
Theorem CheckStop_true_iff_Stopping l w :
  let p := stop_file (path l) (runnerID l) in
  (∀ w', CheckStop l w = Done (true, None) w' →
         disk w !! p = Some (RegFile "Stopping")) ∧
  (os_fault_free w → disk w !! p = Some (RegFile "Stopping") →
   ∃ w', CheckStop l w = Done (true, None) w') ∧
  (disk w !! p = None → ∃ w', CheckStop l w = Done (false, None) w') ∧
  (∀ body, os_fault_free w → disk w !! p = Some (RegFile body) →
           body ≠ "Stopping" →
           ∃ w', CheckStop l w = Done (false, None) w').
Proof.
  unfold CheckStop, stop_file. simpl. set (p := Join _). split_and!.
  - intros w'. run.
    destruct (os_fault w (OsStat p)); run; [done|].
    destruct (disk w !! p) as [n|] eqn:Hd; run_free Hd; [|done].
    destruct (os_fault w (OsOpen p)); run_free Hd; [done|].
    destruct (os_fault w (OsReadAll p)); run_free Hd; [done|].
    destruct n as [body|entries]; run; [|done].
    destruct (String.eqb_spec body Stopping) as [->|]; run; done.
  - intros Hff Hd. run_free Hff. rewrite Hd. run_free Hff.
    rewrite Hd. run_free Hff. by eexists.
  - intros Hd. run.
    destruct (os_fault w (OsStat p)); run; [by eexists|].
    rewrite Hd. by eexists.
  - intros body Hff Hd Hne. run_free Hff. rewrite Hd. run_free Hff.
    rewrite Hd. run_free Hff.
    destruct (String.eqb_spec body Stopping) as [->|]; [done|]. by eexists.
Qed.

(** C3, as the code has it.  Once [os.Stat] has succeeded on the stop signal
    file, a failure to open it or to read it is returned to the caller,
    wrapped; a failure of [os.Stat] itself, of whatever kind, is answered
    with [(false, nil)]. *)
Theorem CheckStop_surfaces_open_and_read_faults l w e :
  let p := stop_file (path l) (runnerID l) in
  (os_fault w (OsStat p) = None → is_Some (disk w !! p) →
   os_fault w (OsOpen p) = Some e →
   ∃ w', CheckStop l w = Done (false, Some (gerrors_Wrap e)) w') ∧
  (os_fault w (OsStat p) = None → is_Some (disk w !! p) →
   os_fault w (OsOpen p) = None → os_fault w (OsReadAll p) = Some e →
   ∃ w', CheckStop l w = Done (false, Some (gerrors_Wrap e)) w') ∧
  (os_fault w (OsStat p) = Some e →
   ∃ w', CheckStop l w = Done (false, None) w').
Proof.
  unfold CheckStop, stop_file. simpl. set (p := Join _). split_and!.
  - intros Hs [n Hd] Ho. run. rewrite Hs. run. rewrite Hd. run.
    rewrite Ho. run. by eexists.
  - intros Hs [n Hd] Ho Hr. run. rewrite Hs. run. rewrite Hd. run.
    rewrite Ho. run. rewrite Hd. run. rewrite Hr. run. by eexists.
  - intros Hs. run. rewrite Hs. run. by eexists.
Qed.

(** C10.  [Init] records the runner id before it loads the runner's state:
    whatever the call returns, the facade it leaves carries the id, and
    [CheckStop] on that facade asks for the stop signal file of that id.
    The call fails when the state file is absent and when it does not
    parse, and a failed call that was given a new id has changed the
    facade. *)
Theorem Init_records_runner_id l ID w :
  ∃ l' err w',
    Init l ID w = Done (l', err) w' ∧
    runnerID l' = ID ∧
    (∀ w2, ∃ r w3, CheckStop l' w2 = Done r w3 ∧
                   head (issued w2 w3)
                     = Some (EvOs (OsStat (stop_file (path l) ID)))) ∧
    (files w !! Join ["runners"; ID +:+ ".yaml"] = None → is_Some err) ∧
    (∀ contents,
       st_fault w (OpGetFile (Join ["runners"; ID +:+ ".yaml"])) = None →
       files w !! Join ["runners"; ID +:+ ".yaml"] = Some contents →
       is_Some (snd (Unmarshal_State contents (state l))) → is_Some err) ∧
    (is_Some err → runnerID l ≠ ID → l' ≠ l).
Proof.
  assert (Hstop : ∀ l', path l' = path l → runnerID l' = ID →
            ∀ w2, ∃ r w3, CheckStop l' w2 = Done r w3 ∧
                   head (issued w2 w3)
                     = Some (EvOs (OsStat (stop_file (path l) ID)))).
  { intros l' <- <- w2. apply CheckStop_consults. }
  unfold Init. run.
  destruct (st_fault w (OpGetFile _)) as [e|] eqn:Hflt; run.
  { eexists _, _, _. split_and!; [done|done|by apply Hstop|by eexists|done|].
    intros _ Hne Heq. by rewrite <- Heq in Hne. }
  destruct (files w !! _) as [contents|] eqn:Hfile; run.
  2: { eexists _, _, _. split_and!; [done|done|by apply Hstop|by eexists|done|].
       intros _ Hne Heq. by rewrite <- Heq in Hne. }
  destruct (Unmarshal_State contents (state l)) as [st [e|]] eqn:Hu; run.
  - eexists _, _, _. split_and!; [done|done|by apply Hstop|by eexists| |].
    + by eexists.
    + intros _ Hne Heq. by rewrite <- Heq in Hne.
  - eexists _, _, _. split_and!; [done|done|by apply Hstop|done| |].
    + intros c _ [= <-]. by rewrite Hu.
    + intros _ Hne Heq. by rewrite <- Heq in Hne.
Qed.

End LifecycleFacts.

(** ** MasterJob, Secrets and the constructor *)

Section LookupFacts.
Context `{YM : Yaml} `{FP : Filepath} `{CS : CredentialStore}.
Implicit Types (l : Local) (w : World) (j : Job).

(** C7.  [MasterJob] returns without panic and has no error to return: its
    result is null when the master job's document cannot be read, be it
    missing or hit by an I/O failure, and when it does not parse; it is the
    parsed job when the document is read and parses. *)
Theorem MasterJob_null_on_failure l w j :
  state l = Some (mkState (Some j)) →
  ∃ r w',
    MasterJob l w = Done r w' ∧
    (∀ e, st_fault w (OpGetFile (master_file j)) = Some e → r = None) ∧
    (files w !! master_file j = None → r = None) ∧
    (∀ contents masterJob,
       st_fault w (OpGetFile (master_file j)) = None →
       files w !! master_file j = Some contents →
       (∀ e, Unmarshal_Job contents = (masterJob, Some e) → r = None) ∧
       (Unmarshal_Job contents = (masterJob, None) → r = Some masterJob)).
Proof.
  intros Hst. unfold MasterJob, job_of, state_of, master_file.
  rewrite Hst. run. set (p := Join _).
  destruct (st_fault w (OpGetFile p)) as [e|]; run.
  { eexists _, _. split_and!; [done|done|done|]. by intros ???. }
  destruct (files w !! p) as [contents|]; run.
  2: { eexists _, _. split_and!; [done|done|done|]. by intros ????. }
  destruct (Unmarshal_Job contents) as [masterJob [e|]] eqn:Hu; run.
  - eexists _, _. split_and!; [done|done|done|].
    intros c mj _ [= <-]. rewrite Hu. split; [done|]. by intros [= _].
  - eexists _, _. split_and!; [done|done|done|].
    intros c mj _ [= <-]. rewrite Hu. split; [by intros ? [= _]|].
    by intros [= ->].
Qed.

(** C8.  With the secret directory of the job absent, [Secrets] returns the
    empty mapping and no error after a single [os.Stat]: the credential
    store is not called. *)
Theorem Secrets_absent_directory l w j :
  state l = Some (mkState (Some j)) →
  disk w !! secrets_dir (path l) j = None →
  ∃ w', Secrets l w = Done (Some ∅, None) w' ∧
        issued w w' = [EvOs (OsStat (secrets_dir (path l) j))].
Proof.
  intros Hst Hd. unfold Secrets, job_of, state_of.
  rewrite Hst. unfold secrets_dir, secrets_template in *. run.
  set (p := Join _) in *.
  destruct (os_fault w (OsStat p)); run.
  - eexists. split; [done|]. by erewrite (issued_app _ _ [_]).
  - rewrite Hd. eexists. split; [done|]. by erewrite (issued_app _ _ [_]).
Qed.

(** The keys [Secrets] builds: one for every entry that is not a directory
    and whose name starts with "l;", namely that name with every occurrence
    of "l;" taken out. *)
Lemma elem_of_dom_collect_secrets j (entries : list DirEntry) (k : string) :
  k ∈ dom (collect_secrets j entries) ↔
  ∃ file, file ∈ entries ∧ IsDir file = false ∧
          HasPrefix (Name file) "l;" = true ∧
          k = ReplaceAll (Name file) "l;" "".
Proof.
  unfold collect_secrets.
  assert (Hgen : ∀ acc,
    k ∈ dom (foldl (secrets_step j) acc entries) ↔
    k ∈ dom acc ∨
    ∃ file, file ∈ entries ∧ IsDir file = false ∧
            HasPrefix (Name file) "l;" = true ∧
            k = ReplaceAll (Name file) "l;" "").
  { induction entries as [|file entries IH]; intros acc; simpl.
    - split; [by left|]. intros [?|(? & Hin & _)]; [done|].
      by apply elem_of_nil in Hin.
    - rewrite IH. unfold secrets_step.
      destruct (IsDir file) eqn:Hdir.
      { split; intros [?|(f & Hin & Hf)]; [by left|right|by left|right].
        - exists f. split; [by right|done].
        - apply elem_of_cons in Hin as [->|Hin];
            [destruct Hf as (? & ? & _); congruence|].
          by exists f. }
      destruct (HasPrefix (Name file) "l;") eqn:Hpre.
      + rewrite dom_insert, elem_of_union, elem_of_singleton.
        split.
        * intros [[->|?]|(f & Hin & ?)]; [right|by left|right].
          -- exists file. split_and!; [by left|done..].
          -- exists f. split; [by right|done].
        * intros [?|(f & Hin & Hf)]; [left; by right|].
          apply elem_of_cons in Hin as [->|Hin].
          -- left; left. by destruct Hf as (_ & _ & ->).
          -- right. by exists f.
      + split; intros [?|(f & Hin & Hf)]; [by left|right|by left|right].
        * exists f. split; [by right|done].
        * apply elem_of_cons in Hin as [->|Hin];
            [destruct Hf as (? & ? & _); congruence|].
          by exists f. }
  rewrite Hgen, dom_empty. split; [intros [Hk|?]; [|done]|by right].
  by apply elem_of_empty in Hk.
Qed.

(** C9.  Given two config files that are read and that parse, in worlds with
    the same home directory, the constructor registered as "local" returns
    the same backend for both: its root is [<home>/.dstack], as are the
    roots of its storage and of its credential store, and nothing of the
    parsed document is in it. *)
Theorem local_constructor_ignores_config
    (w1 w2 : World) (cfg1 cfg2 doc1 doc2 : string) (file1 file2 : File) :
  home w1 = home w2 →
  os_fault w1 (OsReadFile cfg1) = None →
  os_fault w2 (OsReadFile cfg2) = None →
  disk w1 !! cfg1 = Some (RegFile doc1) →
  disk w2 !! cfg2 = Some (RegFile doc2) →
  Unmarshal_File doc1 (mkFile "") = (file1, None) →
  Unmarshal_File doc2 (mkFile "") = (file2, None) →
  let root := Join [home w1; ".dstack"] in
  let backend := mkLocal root "" None (NewLocalStorage root)
                         (NewClientSecret root) in
  ∃ w1' w2',
    local_constructor cfg1 w1 = Done (Some backend, None) w1' ∧
    local_constructor cfg2 w2 = Done (Some backend, None) w2'.
Proof.
  intros Hhome Hf1 Hf2 Hd1 Hd2 Hu1 Hu2. simpl.
  unfold local_constructor, New. run.
  rewrite Hf1, Hf2, Hd1, Hd2. run. rewrite Hu1, Hu2. run.
  rewrite <- Hhome. by eexists _, _.
Qed.

End LookupFacts.

(** ** The operations at work on the concrete setting *)

(** C1.  The head prefix lists nothing: the document is written, and then
    [files[:1]] is taken of a slice without elements.  With no capacity
    behind the slice the call panics; with a spare slot behind it, the slot
    (here the empty string) is renamed and the failure of that rename is
    returned.  The call returns success in neither case. *)
Theorem UpdateState_empty_listing_fails :
  let l := Sample.facade (Sample.J1 "running") in
  let j := Sample.J1 "running" in
  listing (files (Sample.tree ∅ [])) (JobHeadFilepathPrefix j) = [] ∧
  UpdateState l (Sample.tree ∅ [])
    = Panicked (after_listing (Sample.tree ∅ []) j "job_id: J1;running") ∧
  files (after_listing (Sample.tree ∅ []) j "job_id: J1;running")
    !! "jobs/alice/proj/J1.yaml" = Some "job_id: J1;running" ∧
  ∃ w', UpdateState l (Sample.tree ∅ [""])
          = Done (Some (Wrapped (ErrNotExist ""))) w' ∧
        issued (Sample.tree ∅ [""]) w' =
          [EvStorage (OpPutFile "jobs/alice/proj/J1.yaml" "job_id: J1;running");
           EvStorage (OpListFile "jobs/alice/proj/l;J1;");
           EvStorage (OpRenameFile "" "jobs/alice/proj/l;J1;running")].
Proof.
  simpl. split_and!; [by vm_compute..|].
  eexists. split; by vm_compute.
Qed.

(** C2.  A secret directory with the files [l;TOKEN], [l;al;b] and [other]
    and the subdirectory [skip]: the mapping handed to the credential store
    has the keys [TOKEN] and [ab].  The second file has lost both of its
    occurrences of "l;", so that the name [al;b] is no key. *)
Theorem Secrets_strips_every_occurrence :
  let entries := [mkDirEntry "l;TOKEN" false; mkDirEntry "l;al;b" false;
                  mkDirEntry "other" false; mkDirEntry "skip" true] in
  let w := Sample.on_disk {[ Sample.secrets_path := Directory entries ]}
                          Sample.no_os_fault in
  ∃ secrets w',
    Secrets (Sample.facade (Sample.J1 "running")) w
      = Done (Some secrets, None) w' ∧
    head (trace w')
      = Some (EvFetchSecret "secrets/github.com:22/alice/proj" secrets) ∧
    dom secrets = {["TOKEN"; "ab"]} ∧
    secrets !! "ab" = Some "github.com:22/alice/proj/ab" ∧
    secrets !! "al;b" = None.
Proof.
  intros entries w.
  exists (collect_secrets (H := Sample.models) (Sample.J1 "running") entries).
  eexists.
  split_and!; [by vm_compute|by vm_compute| |by vm_compute|by vm_compute].
  apply set_eq. intros k. rewrite !elem_of_union, !elem_of_singleton.
  rewrite elem_of_dom_collect_secrets. split.
  - intros (file & Hin & Hdir & Hpre & ->).
    repeat (apply elem_of_cons in Hin as [->|Hin]); try done; auto.
    by apply elem_of_nil in Hin.
  - intros [->| ->].
    + exists (mkDirEntry "l;TOKEN" false).
      split_and!; [by left|done..].
    + exists (mkDirEntry "l;al;b" false).
      split_and!; [right; by left|done..].
Qed.

(** C3 does not hold as stated: the stop signal file is there and holds
    [Stopping], [os.Stat] on it fails for lack of permission, and
    [CheckStop] answers [(false, nil)]. *)
Lemma CheckStop_hides_stat_fault :
  let flt := λ o, match o with
                  | OsStat _ => Some (ErrIO "permission denied")
                  | _ => None
                  end in
  let w := Sample.on_disk {[ Sample.stop_path := RegFile "Stopping" ]} flt in
  let l := Sample.facade (Sample.J1 "running") in
  stop_file (path l) (runnerID l) = Sample.stop_path ∧
  disk w !! Sample.stop_path = Some (RegFile "Stopping") ∧
  os_fault w (OsStat Sample.stop_path) = Some (ErrIO "permission denied") ∧
  ∃ w', CheckStop l w = Done (false, None) w'.
Proof.
  simpl. split_and!; [by vm_compute..|].
  eexists. by vm_compute.
Qed.

Lemma CheckStop_surfaces_open_and_read_faults_witness :
  let flt := λ o, match o with
                  | OsOpen _ => Some (ErrIO "permission denied")
                  | _ => None
                  end in
  let w := Sample.on_disk {[ Sample.stop_path := RegFile "Stopping" ]} flt in
  ∃ w', CheckStop (Sample.facade (Sample.J1 "running")) w
          = Done (false, Some (gerrors_Wrap (ErrIO "permission denied"))) w'.
Proof.
  intros flt w.
  apply (proj1 (CheckStop_surfaces_open_and_read_faults
                  (Sample.facade (Sample.J1 "running")) w
                  (ErrIO "permission denied"))).
  - reflexivity.
  - exists (RegFile "Stopping"). vm_compute. reflexivity.
  - reflexivity.
Defined.

Lemma CheckStop_true_iff_Stopping_witness :
  let w := Sample.on_disk {[ Sample.stop_path := RegFile "Stopping" ]}
                          Sample.no_os_fault in
  ∃ w', CheckStop (Sample.facade (Sample.J1 "running")) w
          = Done (true, None) w'.
Proof.
  intros w.
  apply (proj1 (proj2 (CheckStop_true_iff_Stopping
                         (Sample.facade (Sample.J1 "running")) w))).
  - intros o. reflexivity.
  - vm_compute. reflexivity.
Defined.

Lemma UpdateState_keeps_single_head_witness :
  let w := Sample.tree {[ "jobs/alice/proj/l;J1;submitted" := "" ]} [] in
  let l := Sample.facade (Sample.J1 "submitted") in
  (∃ w', UpdateState (Sample.facade (Sample.J1 "running")) w = Done None w' ∧
         issued w w' =
           [EvStorage (OpPutFile (JobFilepath (Sample.J1 "running"))
                                 "job_id: J1;running");
            EvStorage (OpListFile
                         (JobHeadFilepathPrefix (Sample.J1 "running")));
            EvStorage (OpRenameFile "jobs/alice/proj/l;J1;submitted"
                         (JobHeadFilepath (Sample.J1 "running")))] ∧
         files w' !! JobFilepath (Sample.J1 "running")
           = Some "job_id: J1;running" ∧
         listing (files w') (JobHeadFilepathPrefix (Sample.J1 "running"))
           = [JobHeadFilepath (Sample.J1 "running")]) ∧
  (∃ w', UpdateState_run l [Sample.J1 "running"; Sample.J1 "done"] w
           = Done None w' ∧
         listing (files w') "jobs/alice/proj/l;J1;"
           = [last_head "jobs/alice/proj/l;J1;submitted"
                        [Sample.J1 "running"; Sample.J1 "done"]]).
Proof.
  intros w l.
  destruct (UpdateState_keeps_single_head (YM := Sample.yaml))
    as [Hcall Hrun].
  split.
  - apply Hcall.
    + reflexivity.
    + reflexivity.
    + intros o. reflexivity.
    + repeat split; try reflexivity. by eexists.
    + vm_compute. reflexivity.
  - apply Hrun.
    + intros o. reflexivity.
    + repeat constructor; try reflexivity; by eexists.
    + vm_compute. reflexivity.
Defined.

(** C5 does not hold as stated: the head prefix lists [l;J1;running] and
    [l;J1;submitted], the job is [submitted], and the rename of the first
    entry replaces the second: its contents change and one file is left. *)
Lemma UpdateState_replaces_head_namesake :
  let w := Sample.tree {[ "jobs/alice/proj/l;J1;running" := "r";
                          "jobs/alice/proj/l;J1;submitted" := "s" ]} [] in
  let j := Sample.J1 "submitted" in
  listing (files w) (JobHeadFilepathPrefix j)
    = ["jobs/alice/proj/l;J1;running"; "jobs/alice/proj/l;J1;submitted"] ∧
  files w !! "jobs/alice/proj/l;J1;submitted" = Some "s" ∧
  ∃ w', UpdateState (Sample.facade j) w = Done None w' ∧
        files w' !! "jobs/alice/proj/l;J1;submitted" = Some "r" ∧
        listing (files w') (JobHeadFilepathPrefix j)
          = ["jobs/alice/proj/l;J1;submitted"].
Proof.
  simpl. split_and!; [by vm_compute..|].
  eexists. split_and!; by vm_compute.
Qed.

Lemma UpdateState_renames_first_only_witness :
  let w := Sample.tree {[ "jobs/alice/proj/l;J1;running" := "r";
                          "jobs/alice/proj/l;J1;submitted" := "s" ]} [] in
  let j := Sample.J1 "done" in
  ∃ w', UpdateState (Sample.facade j) w = Done None w' ∧
        issued w w' =
          [EvStorage (OpPutFile (JobFilepath j) "job_id: J1;done");
           EvStorage (OpListFile (JobHeadFilepathPrefix j));
           EvStorage (OpRenameFile "jobs/alice/proj/l;J1;running"
                                   (JobHeadFilepath j))] ∧
        is_Some (files w !! "jobs/alice/proj/l;J1;running") ∧
        files w' !! JobHeadFilepath j
          = files w !! "jobs/alice/proj/l;J1;running" ∧
        ("jobs/alice/proj/l;J1;running" ≠ JobHeadFilepath j →
         files w' !! "jobs/alice/proj/l;J1;running" = None) ∧
        ∀ x, x ∈ ["jobs/alice/proj/l;J1;submitted"] →
             String.le "jobs/alice/proj/l;J1;running" x ∧
             x ≠ "jobs/alice/proj/l;J1;running" ∧
             x ∈ listing (files w') (JobHeadFilepathPrefix j) ∧
             (x ≠ JobHeadFilepath j → files w' !! x = files w !! x).
Proof.
  intros w j.
  apply (UpdateState_renames_first_only (Sample.facade j) w j
           "job_id: J1;done" "jobs/alice/proj/l;J1;running"
           "jobs/alice/proj/l;J1;submitted" []).
  - reflexivity.
  - reflexivity.
  - intros o. reflexivity.
  - reflexivity.
  - vm_compute. reflexivity.
Defined.

Lemma MasterJob_null_on_failure_witness :
  let j := Sample.J1 "running" in
  ∃ r w', MasterJob (Sample.facade j) (Sample.tree ∅ []) = Done r w' ∧
          r = None.
Proof.
  intros j.
  destruct (MasterJob_null_on_failure (Sample.facade j) (Sample.tree ∅ []) j)
    as (r & w' & Hrun & _ & Hmissing & _).
  - reflexivity.
  - exists r, w'. split; [exact Hrun|]. apply Hmissing. reflexivity.
Defined.

Lemma Secrets_absent_directory_witness :
  let j := Sample.J1 "running" in
  let w := Sample.on_disk ∅ Sample.no_os_fault in
  ∃ w', Secrets (Sample.facade j) w = Done (Some ∅, None) w' ∧
        issued w w' = [EvOs (OsStat (secrets_dir (path (Sample.facade j)) j))].
Proof.
  intros j w.
  apply (Secrets_absent_directory (Sample.facade j) w j).
  - reflexivity.
  - reflexivity.
Defined.

Lemma local_constructor_ignores_config_witness :
  let w := Sample.on_disk {[ "/etc/dstack/a.yaml" := RegFile "path: /srv/a";
                             "/etc/dstack/b.yaml" := RegFile "path: /srv/b" ]}
                          Sample.no_os_fault in
  let root := Join [home w; ".dstack"] in
  let backend := mkLocal root "" None (NewLocalStorage root)
                         (NewClientSecret root) in
  ∃ w1' w2',
    local_constructor "/etc/dstack/a.yaml" w = Done (Some backend, None) w1' ∧
    local_constructor "/etc/dstack/b.yaml" w = Done (Some backend, None) w2'.
Proof.
  intros w.
  apply (local_constructor_ignores_config w w
           "/etc/dstack/a.yaml" "/etc/dstack/b.yaml"
           "path: /srv/a" "path: /srv/b"
           (mkFile "/srv/a") (mkFile "/srv/b")).
  - reflexivity.
  - reflexivity.
  - reflexivity.
  - vm_compute. reflexivity.
  - vm_compute. reflexivity.
  - reflexivity.
  - reflexivity.
Defined.

Lemma Init_records_runner_id_witness :
  let l := Sample.facade (Sample.J1 "running") in
  ∃ l' err w',
    Init l "R2" (Sample.tree ∅ []) = Done (l', err) w' ∧
    runnerID l' = "R2" ∧ is_Some err ∧ l' ≠ l.
Proof.
  intros l.
  destruct (Init_records_runner_id l "R2" (Sample.tree ∅ []))
    as (l' & err & w' & Hrun & Hid & _ & Habsent & _ & Hchanged).
  exists l', err, w'.
  assert (Herr : is_Some err) by (apply Habsent; reflexivity).
  split; [exact Hrun|]. split; [exact Hid|]. split; [exact Herr|].
  apply Hchanged; [exact Herr|]. discriminate.
Defined.

(** * Further properties of the facade *)

(** ** Loading the state and reading job documents *)

Section LoadingFacts.
Context `{YM : Yaml} `{FP : Filepath} `{CS : CredentialStore}.
Implicit Types (l : Local) (w : World) (j : Job).

(** X1.  When the runner's state file is read and parses, [Init] succeeds
    after the single [GetFile], the facade holds the id and the decoded
    state, and [Job] on it returns the job of that state. *)
Theorem Init_success_loads_state l ID w contents st :
  st_fault w (OpGetFile (Join ["runners"; ID +:+ ".yaml"])) = None →
  files w !! Join ["runners"; ID +:+ ".yaml"] = Some contents →
  Unmarshal_State contents (state l) = (st, None) →
  let l' := mkLocal (path l) ID st (storage l) (cliSecret l) in
  let w' := log (EvStorage (OpGetFile (Join ["runners"; ID +:+ ".yaml"]))) w in
  Init l ID w = Done (l', None) w' ∧
  (∀ j, st = Some (mkState (Some j)) → Local_Job l' w' = Done (Some j) w').
Proof.
  intros Hflt Hfile Hu. simpl. split.
  - unfold Init. run. rewrite Hflt. run. rewrite Hfile. run.
    by rewrite Hu.
  - intros j ->. unfold Local_Job, job_of, state_of. by run.
Qed.

(** X2.  When the state file cannot be read, [Init] returns the wrapped
    error of [GetFile] and the facade keeps the state it had: only the
    runner id has changed. *)
Theorem Init_read_failure_keeps_state l ID w :
  let p := Join ["runners"; ID +:+ ".yaml"] in
  let l' := mkLocal (path l) ID (state l) (storage l) (cliSecret l) in
  let w' := log (EvStorage (OpGetFile p)) w in
  (∀ e, st_fault w (OpGetFile p) = Some e →
        Init l ID w = Done (l', Some (gerrors_Wrap e)) w') ∧
  (st_fault w (OpGetFile p) = None → files w !! p = None →
   Init l ID w = Done (l', Some (gerrors_Wrap (ErrNotExist p))) w').
Proof.
  simpl. split.
  - intros e Hflt. unfold Init. run. rewrite Hflt. by run.
  - intros Hflt Hfile. unfold Init. run. rewrite Hflt. run.
    by rewrite Hfile.
Qed.

(** X3.  [GetJobByPath] returns a job or an error, never both and never
    neither; it returns the parsed job exactly when the document is read
    and parses, and it leaves the storage tree as it found it. *)
Theorem GetJobByPath_job_xor_error l (p : string) w :
  ∃ job err w',
    GetJobByPath l p w = Done (job, err) w' ∧
    (is_Some job ↔ err = None) ∧
    files w' = files w ∧
    (∀ j, job = Some j ↔
          ∃ contents, st_fault w (OpGetFile p) = None ∧
                      files w !! p = Some contents ∧
                      Unmarshal_Job contents = (j, None)).
Proof.
  unfold GetJobByPath. run.
  destruct (st_fault w (OpGetFile p)) as [e|] eqn:Hflt; run.
  { eexists _, _, _. split_and!; [done| |done|].
    - split; [by intros [? ?]|done].
    - intros j. split; [done|]. by intros (? & ? & _). }
  destruct (files w !! p) as [contents|] eqn:Hfile; run.
  2: { eexists _, _, _. split_and!; [done| |done|].
       - split; [by intros [? ?]|done].
       - intros j. split; [done|]. by intros (? & _ & ? & _). }
  destruct (Unmarshal_Job contents) as [job [e|]] eqn:Hu; run.
  - eexists _, _, _. split_and!; [done| |done|].
    + split; [by intros [? ?]|done].
    + intros j. split; [done|]. intros (c & _ & [= <-] & Hc). congruence.
  - eexists _, _, _. split_and!; [done| |done|].
    + split; [done|by eexists].
    + intros j. split.
      * intros [= <-]. by exists contents.
      * intros (c & _ & [= <-] & Hc). congruence.
Qed.

(** X4.  [MasterJob] is [GetJobByPath] at the path of the master job's
    document with the error dropped. *)
Theorem MasterJob_is_GetJobByPath l w j :
  state l = Some (mkState (Some j)) →
  ∃ job err w',
    GetJobByPath l (master_file j) w = Done (job, err) w' ∧
    MasterJob l w = Done job w'.
Proof.
  intros Hst. unfold MasterJob, GetJobByPath, job_of, state_of, master_file.
  rewrite Hst. run. set (p := Join _).
  destruct (st_fault w (OpGetFile p)); run; [by eexists _, _, _|].
  destruct (files w !! p) as [contents|]; run; [|by eexists _, _, _].
  destruct (Unmarshal_Job contents) as [job [e|]]; run; by eexists _, _, _.
Qed.

(** X5.  A backend fresh from [New] holds no state: [Job], [MasterJob],
    [Requirements], [UpdateState] and [Secrets] panic on it before any call
    to the storage or to package [os], while [CheckStop] returns. *)
Theorem New_backend_needs_Init w :
  ∃ l, New w = Done l w ∧
       Local_Job l w = Panicked w ∧
       MasterJob l w = Panicked w ∧
       Local_Requirements l w = Panicked w ∧
       UpdateState l w = Panicked w ∧
       Secrets l w = Panicked w ∧
       ∃ r w', CheckStop l w = Done r w'.
Proof.
  eexists. split; [done|]. split_and!; try done.
  destruct (CheckStop_consults
              (mkLocal (Join [home w; DSTACK_DIR_PATH]) "" None
                 (NewLocalStorage (Join [home w; DSTACK_DIR_PATH]))
                 (NewClientSecret (Join [home w; DSTACK_DIR_PATH]))) w)
    as (r & w' & Hrun & _).
  by exists r, w'.
Qed.

End LoadingFacts.

(** ** Failures and repetitions of UpdateState *)

Section UpdateStateMore.
Context `{YM : Yaml} `{FP : Filepath} `{CS : CredentialStore}.
Implicit Types (l : Local) (w : World) (j : Job).

(** X6.  When the job does not serialize, [UpdateState] returns the wrapped
    error without a single call to the storage. *)
Theorem UpdateState_marshal_failure l w st e :
  state l = Some st →
  Marshal_Job (StateJob st) = Err e →
  UpdateState l w = Done (Some (gerrors_Wrap e)) w.
Proof.
  intros Hst Hm. unfold UpdateState, state_of. rewrite Hst. run.
  by rewrite Hm.
Qed.


(** X8.  When the listing fails, or the rename of the first listed file
    does, [UpdateState] returns the wrapped error with the document written
    and no file moved. *)
Theorem UpdateState_late_failure l w j contents e :
  state l = Some (mkState (Some j)) →
  Marshal_Job (Some j) = Ok contents →
  st_fault w (OpPutFile (JobFilepath j) contents) = None →
  (st_fault w (OpListFile (JobHeadFilepathPrefix j)) = Some e ∨
   ∃ f rest,
     st_fault w (OpListFile (JobHeadFilepathPrefix j)) = None ∧
     listing (<[JobFilepath j := contents]> (files w))
             (JobHeadFilepathPrefix j) = f :: rest ∧
     st_fault w (OpRenameFile f (JobHeadFilepath j)) = Some e) →
  ∃ w', UpdateState l w = Done (Some (gerrors_Wrap e)) w' ∧
        files w' = <[JobFilepath j := contents]> (files w).
Proof.
  intros Hst Hm Hput Hlate. unfold UpdateState, job_of, state_of.
  rewrite Hst. run. rewrite Hm. run. rewrite Hput. run.
  destruct Hlate as [Hlist|(f & rest & Hlist & Hl & Hren)].
  - rewrite Hlist. run. by eexists.
  - rewrite Hlist. run. rewrite Hl. run. rewrite Hren. run. by eexists.
Qed.

(** X9.  On a tree with a single head file, a second [UpdateState] for the
    same job changes nothing: it renames the head file to itself. *)
Theorem UpdateState_twice l w j contents f :
  state l = Some (mkState (Some j)) →
  Marshal_Job (Some j) = Ok contents →
  st_fault_free w →
  HasPrefix (JobHeadFilepath j) (JobHeadFilepathPrefix j) = true →
  HasPrefix (JobFilepath j) (JobHeadFilepathPrefix j) = false →
  listing (files w) (JobHeadFilepathPrefix j) = [f] →
  ∃ w1 w2, UpdateState l w = Done None w1 ∧
           UpdateState l w1 = Done None w2 ∧
           files w2 = files w1 ∧
           issued w1 w2 =
             [EvStorage (OpPutFile (JobFilepath j) contents);
              EvStorage (OpListFile (JobHeadFilepathPrefix j));
              EvStorage (OpRenameFile (JobHeadFilepath j)
                                      (JobHeadFilepath j))].
Proof.
  intros Hst Hm Hff Hhead Hdoc Hl.
  destruct (UpdateState_single l w j contents f)
    as (w1 & Hrun1 & Hff1 & _ & Hdoc1 & Hl1); auto.
  destruct (UpdateState_step l w1 j contents (JobHeadFilepath j) [])
    as (c & Hc & Hrun2); auto.
  { by rewrite listing_put_other. }
  exists w1, (after_update w1 j contents (JobHeadFilepath j) c).
  split_and!; [done|done| |by apply (issued_app _ _ [_; _; _])].
  simpl. rewrite insert_delete_eq.
  rewrite (insert_id (files w1) _ _ Hdoc1) in *.
  by apply insert_id.
Qed.

(** X10.  [UpdateState] never adds a file under the head prefix: whatever
    is listed there afterwards is the new head file or was listed before,
    behind the first entry; and unless it already bore the new name, the
    first entry is gone. *)
Theorem UpdateState_adds_no_head_file l w j contents f rest :
  state l = Some (mkState (Some j)) →
  Marshal_Job (Some j) = Ok contents →
  st_fault_free w →
  HasPrefix (JobFilepath j) (JobHeadFilepathPrefix j) = false →
  listing (files w) (JobHeadFilepathPrefix j) = f :: rest →
  ∃ w', UpdateState l w = Done None w' ∧
        (∀ x, x ∈ listing (files w') (JobHeadFilepathPrefix j) →
              x = JobHeadFilepath j ∨ x ∈ rest) ∧
        length (listing (files w') (JobHeadFilepathPrefix j))
          ≤ length (f :: rest) ∧
        (f ≠ JobHeadFilepath j →
         f ∉ listing (files w') (JobHeadFilepathPrefix j)).
Proof.
  intros Hst Hm Hff Hdoc Hl.
  set (p := JobHeadFilepathPrefix j) in *.
  destruct (UpdateState_step l w j contents f rest) as (c & Hc & Hrun); auto.
  { fold p. by rewrite listing_put_other. }
  exists (after_update w j contents f c).
  assert (Hsub : ∀ x, x ∈ listing (files (after_update w j contents f c)) p →
                      x ∈ JobHeadFilepath j :: rest).
  { intros x [Hx Hp]%elem_of_listing. simpl in Hx.
    destruct (decide (x = JobHeadFilepath j)) as [->|Hn]; [by left|right].
    rewrite lookup_insert_ne in Hx by done.
    destruct (decide (x = f)) as [->|Hnf].
    { rewrite lookup_delete_eq in Hx. by destruct Hx. }
    rewrite lookup_delete_ne in Hx by done.
    assert (JobFilepath j ≠ x) by (intros <-; congruence).
    rewrite lookup_insert_ne in Hx by done.
    assert (Hin : x ∈ listing (files w) p) by by apply elem_of_listing.
    rewrite Hl in Hin. by apply elem_of_cons in Hin as [?|?]. }
  split_and!; [done| | |].
  - intros x Hx. by apply elem_of_cons, Hsub.
  - apply (submseteq_length _ (JobHeadFilepath j :: rest)).
    apply NoDup_submseteq; [apply NoDup_listing|done].
  - intros Hne [Hx _]%elem_of_listing. simpl in Hx.
    rewrite lookup_insert_ne, lookup_delete_eq in Hx by done.
    by destruct Hx.
Qed.

End UpdateStateMore.

(** ** The mapping Secrets builds *)

Section SecretsFacts.
Context `{YM : Yaml} `{FP : Filepath} `{CS : CredentialStore}.
Implicit Types (l : Local) (w : World) (j : Job).

Lemma HasPrefix_app (s p : string) :
  HasPrefix s p = true → ∃ r, s = p +:+ r.
Proof.
  revert s. induction p as [|a p IH]; intros s Hs.
  - by exists s.
  - destruct s as [|b s]; [done|]. simpl in Hs.
    destruct (Ascii.eqb_spec a b) as [->|]; [|done].
    destruct (IH s Hs) as [r ->]. by exists r.
Qed.

(** A name in which "l;" does not occur passes [ReplaceAll] unchanged. *)
Lemma ReplaceAll_absent (s : string) :
  Contains s "l;" = false → ReplaceAll s "l;" "" = s.
Proof.
  unfold ReplaceAll. induction s as [|c s IH]; [done|].
  intros Hs.
  change (Contains (String c s) "l;")
    with (HasPrefix (String c s) "l;" || Contains s "l;") in Hs.
  apply orb_false_elim in Hs as [Hpre Hrest].
  change (ReplaceAll_from 0 (String c s) "l;" "")
    with (if HasPrefix (String c s) "l;"
          then "" +:+ ReplaceAll_from 1 s "l;" ""
          else String c (ReplaceAll_from 0 s "l;" "")).
  rewrite Hpre. by rewrite IH.
Qed.

(** The leading "l;" is taken out and the rest is treated in turn. *)
Lemma ReplaceAll_prefix (s : string) :
  ReplaceAll ("l;" +:+ s) "l;" "" = ReplaceAll s "l;" "".
Proof.
  unfold ReplaceAll.
  change (ReplaceAll_from 0 ("l;" +:+ s) "l;" "")
    with (if HasPrefix s ""
          then "" +:+ ReplaceAll_from 0 s "l;" ""
          else String "l" (ReplaceAll_from 0 (";" +:+ s) "l;" "")).
  by destruct s.
Qed.

Lemma collect_secrets_value j (entries : list DirEntry) (k v : string) :
  collect_secrets j entries !! k = Some v →
  v = RepoHostNameWithPort j +:+ "/" +:+ RepoUserName j +:+ "/"
      +:+ RepoName j +:+ "/" +:+ k.
Proof.
  unfold collect_secrets.
  assert (Hgen : ∀ acc,
    (∀ k v, acc !! k = Some v →
            v = RepoHostNameWithPort j +:+ "/" +:+ RepoUserName j +:+ "/"
                +:+ RepoName j +:+ "/" +:+ k) →
    ∀ k v, foldl (secrets_step j) acc entries !! k = Some v →
           v = RepoHostNameWithPort j +:+ "/" +:+ RepoUserName j +:+ "/"
               +:+ RepoName j +:+ "/" +:+ k).
  { induction entries as [|file entries IH]; intros acc Hacc; [done|].
    simpl. apply IH. unfold secrets_step.
    destruct (IsDir file); [done|].
    destruct (HasPrefix (Name file) "l;"); [|done].
    intros k' v'. rewrite lookup_insert.
    case_decide as Hk; [|by apply Hacc]. intros [= <-]. by rewrite Hk. }
  apply Hgen. intros k' v'. by rewrite lookup_empty.
Qed.

(** X11.  In the mapping [Secrets] hands to the credential store, every
    key is bound to the path of that key below the repo:
    [<host>/<user>/<repo>/<key>]. *)
Theorem Secrets_values_are_key_paths j (entries : list DirEntry)
    (k v : string) :
  collect_secrets j entries !! k = Some v →
  v = RepoHostNameWithPort j +:+ "/" +:+ RepoUserName j +:+ "/"
      +:+ RepoName j +:+ "/" +:+ k.
Proof. apply collect_secrets_value. Qed.

(** X12.  A file named "l;" followed by a name in which "l;" does not
    occur gives the key that name, bound to the name's path below the
    repo. *)
Theorem Secrets_key_of_plain_name j (entries : list DirEntry)
    (name : string) :
  mkDirEntry ("l;" +:+ name) false ∈ entries →
  Contains name "l;" = false →
  collect_secrets j entries !! name
    = Some (RepoHostNameWithPort j +:+ "/" +:+ RepoUserName j +:+ "/"
            +:+ RepoName j +:+ "/" +:+ name).
Proof.
  intros Hin Hplain.
  assert (Hdom : name ∈ dom (collect_secrets j entries)).
  { apply elem_of_dom_collect_secrets.
    exists (mkDirEntry ("l;" +:+ name) false).
    split_and!; [done|done|by destruct name|]. simpl.
    by rewrite ReplaceAll_prefix, ReplaceAll_absent. }
  apply elem_of_dom in Hdom as [v Hv].
  by rewrite Hv, (collect_secrets_value _ _ _ _ Hv).
Qed.

(** X13.  When the secret directory is there but cannot be read,
    [Secrets] returns no mapping and the wrapped error of [os.ReadDir]; the
    credential store is not called. *)
Theorem Secrets_readdir_failure l w j n e :
  state l = Some (mkState (Some j)) →
  os_fault w (OsStat (secrets_dir (path l) j)) = None →
  disk w !! secrets_dir (path l) j = Some n →
  os_fault w (OsReadDir (secrets_dir (path l) j)) = Some e →
  ∃ w', Secrets l w = Done (None, Some (gerrors_Wrap e)) w' ∧
        issued w w' = [EvOs (OsStat (secrets_dir (path l) j));
                       EvOs (OsReadDir (secrets_dir (path l) j))].
Proof.
  intros Hst Hs Hd Hr. unfold Secrets, job_of, state_of.
  rewrite Hst. unfold secrets_dir, secrets_template in *. run.
  set (p := Join _) in *. rewrite Hs. run. rewrite Hd. run.
  rewrite Hr. run.
  eexists. split; [done|]. by erewrite (issued_app _ _ [_; _]).
Qed.

(** X14.  When the secret directory is read, [Secrets] returns what the
    credential store answers for the template path and the mapping built
    from the entries, after one [os.Stat], one [os.ReadDir] and one call of
    the store. *)
Theorem Secrets_returns_store_answer l w j (entries : list DirEntry) :
  state l = Some (mkState (Some j)) →
  os_fault w (OsStat (secrets_dir (path l) j)) = None →
  os_fault w (OsReadDir (secrets_dir (path l) j)) = None →
  disk w !! secrets_dir (path l) j = Some (Directory entries) →
  ∃ w', Secrets l w
          = Done (fetchSecret (cliSecret l) (secrets_template j)
                              (collect_secrets j entries) w') w' ∧
        issued w w' = [EvOs (OsStat (secrets_dir (path l) j));
                       EvOs (OsReadDir (secrets_dir (path l) j));
                       EvFetchSecret (secrets_template j)
                                     (collect_secrets j entries)].
Proof.
  intros Hst Hs Hr Hd. unfold Secrets, call_fetchSecret, job_of, state_of.
  rewrite Hst. unfold secrets_dir, secrets_template in *. run.
  set (p := Join _) in *. rewrite Hs. run. rewrite Hd. run.
  rewrite Hr. run. rewrite Hd. run.
  eexists. split; [done|]. by erewrite (issued_app _ _ [_; _; _]).
Qed.

(** X15.  The constructor registered as "local" returns a backend or an
    error, never both and never neither; an error is the one of reading or
    of parsing the config, unwrapped, and it has been printed. *)
Theorem local_constructor_backend_xor_error (cfg : string) w :
  ∃ backend err w',
    local_constructor cfg w = Done (backend, err) w' ∧
    (is_Some backend ↔ err = None) ∧
    (∀ e, err = Some e →
          head (trace w') = Some (EvPrintln "[ERROR]" e) ∧
          (os_fault w (OsReadFile cfg) = Some e ∨
           disk w !! cfg = None ∨
           (∃ entries, disk w !! cfg = Some (Directory entries)) ∨
           ∃ doc, disk w !! cfg = Some (RegFile doc) ∧
                  snd (Unmarshal_File doc (mkFile "")) = Some e)).
Proof.
  unfold local_constructor, New. run.
  destruct (os_fault w (OsReadFile cfg)) as [e|] eqn:Hflt; run.
  { eexists _, _, _. split_and!; [done| |].
    - split; [by intros [? ?]|done].
    - intros ? [= <-]. split; [done|by left]. }
  destruct (disk w !! cfg) as [[doc|entries]|] eqn:Hd; run.
  - destruct (Unmarshal_File doc (mkFile "")) as [file [e|]] eqn:Hu; run.
    + eexists _, _, _. split_and!; [done| |].
      * split; [by intros [? ?]|done].
      * intros ? [= <-]. split; [done|]. do 3 right. exists doc.
        by rewrite Hu.
    + eexists _, _, _. split_and!; [done| |done].
      split; [done|by eexists].
  - eexists _, _, _. split_and!; [done| |].
    + split; [by intros [? ?]|done].
    + intros ? [= <-]. split; [done|]. right; right; left. by eexists.
  - eexists _, _, _. split_and!; [done| |].
    + split; [by intros [? ?]|done].
    + intros ? [= <-]. split; [done|]. right; by left.
Qed.

End SecretsFacts.

(** ** CheckStop only reads *)

Section CheckStopMore.
Context `{YM : Yaml} `{FP : Filepath} `{CS : CredentialStore}.
Implicit Types (l : Local) (w : World).

(** X16.  [CheckStop] always returns, leaves the storage tree and the disk
    as they were, and issues no call but [os.Stat], [os.Open] and
    [io.ReadAll] on the stop signal file of the recorded runner id. *)
Theorem CheckStop_only_reads l w :
  let p := stop_file (path l) (runnerID l) in
  ∃ r w', CheckStop l w = Done r w' ∧
          files w' = files w ∧ disk w' = disk w ∧
          ∀ ev, ev ∈ issued w w' →
                ev ∈ [EvOs (OsStat p); EvOs (OsOpen p); EvOs (OsReadAll p)].
Proof.
  unfold CheckStop, stop_file. simpl. set (p := Join _). run.
  assert (H1 : ∀ w', trace w' = [EvOs (OsStat p)] ++ trace w →
            ∀ ev, ev ∈ issued w w' →
              ev ∈ [EvOs (OsStat p); EvOs (OsOpen p); EvOs (OsReadAll p)]).
  { intros w' Ht ev. rewrite (issued_app _ _ _ Ht). simpl.
    intros ->%list_elem_of_singleton. by left. }
  assert (H2 : ∀ w', trace w' = [EvOs (OsOpen p); EvOs (OsStat p)] ++ trace w →
            ∀ ev, ev ∈ issued w w' →
              ev ∈ [EvOs (OsStat p); EvOs (OsOpen p); EvOs (OsReadAll p)]).
  { intros w' Ht ev. rewrite (issued_app _ _ _ Ht). simpl.
    intros [->|[->|?%elem_of_nil]%elem_of_cons]%elem_of_cons;
      [by left|right; by left|done]. }
  assert (H3 : ∀ w', trace w' = [EvOs (OsReadAll p); EvOs (OsOpen p);
                                  EvOs (OsStat p)] ++ trace w →
            ∀ ev, ev ∈ issued w w' →
              ev ∈ [EvOs (OsStat p); EvOs (OsOpen p); EvOs (OsReadAll p)]).
  { intros w' Ht ev. by rewrite (issued_app _ _ _ Ht). }
  destruct (os_fault w (OsStat p)); run.
  { eexists _, _. split_and!; [done|done|done|]. by apply H1. }
  destruct (disk w !! p) as [n|] eqn:Hd; run_free Hd.
  2: { eexists _, _. split_and!; [done|done|done|]. by apply H1. }
  destruct (os_fault w (OsOpen p)); run_free Hd.
  { eexists _, _. split_and!; [done|done|done|]. by apply H2. }
  destruct (os_fault w (OsReadAll p)); run_free Hd.
  { eexists _, _. split_and!; [done|done|done|]. by apply H3. }
  destruct n as [body|entries]; run.
  - destruct (String.eqb body Stopping); run;
      (eexists _, _; split_and!; [done|done|done|]; by apply H3).
  - eexists _, _. split_and!; [done|done|done|]. by apply H3.
Qed.

End CheckStopMore.

(** ** The further properties at work on the concrete setting *)

Lemma Init_success_loads_state_witness :
  let w := Sample.tree {[ "runners/R7.yaml" := "job: J7" ]} [] in
  let j := Sample.mkJob "J7" "" "" "" "" "" in
  ∃ l' w', Init (Sample.facade (Sample.J1 "running")) "R7" w
             = Done (l', None) w' ∧
           runnerID l' = "R7" ∧
           Local_Job l' w' = Done (Some j) w'.
Proof.
  intros w j.
  destruct (Init_success_loads_state
              (Sample.facade (Sample.J1 "running")) "R7" w "job: J7"
              (Some (@mkState Sample.models (Some j)))) as [Hrun Hjob].
  - reflexivity.
  - vm_compute. reflexivity.
  - reflexivity.
  - eexists _, _. split; [exact Hrun|]. split; [reflexivity|].
    apply Hjob. reflexivity.
Defined.

Lemma Init_read_failure_keeps_state_witness :
  let l := Sample.facade (Sample.J1 "running") in
  ∃ l' e w', Init l "R7" (Sample.tree ∅ []) = Done (l', Some e) w' ∧
             state l' = state l ∧ runnerID l' = "R7".
Proof.
  intros l. eexists _, _, _. split.
  - apply (proj2 (Init_read_failure_keeps_state l "R7" (Sample.tree ∅ []))).
    + reflexivity.
    + reflexivity.
  - split; reflexivity.
Defined.

Lemma MasterJob_is_GetJobByPath_witness :
  let j := Sample.J1 "running" in
  let w := Sample.tree {[ "jobs/alice/proj/M9.yaml" := "job_id: M9" ]} [] in
  ∃ job err w',
    master_file j = "jobs/alice/proj/M9.yaml" ∧
    GetJobByPath (Sample.facade j) (master_file j) w = Done (job, err) w' ∧
    MasterJob (Sample.facade j) w = Done job w'.
Proof.
  intros j w.
  destruct (MasterJob_is_GetJobByPath (Sample.facade j) w j eq_refl)
    as (job & err & w' & Hget & Hmaster).
  exists job, err, w'. split; [reflexivity|]. split; [exact Hget|].
  exact Hmaster.
Defined.

Lemma UpdateState_marshal_failure_witness :
  let j := Sample.mkJob "" "" "alice" "proj" "github.com:22" "running" in
  let w := Sample.tree {[ "jobs/alice/proj/l;;submitted" := "" ]} [] in
  UpdateState (YM := Sample.strict_yaml) (Sample.facade j) w
    = Done (Some (gerrors_Wrap
                    (ErrYaml "cannot marshal a job without an id"))) w.
Proof.
  intros j w.
  apply (UpdateState_marshal_failure (YM := Sample.strict_yaml)
           (Sample.facade j) w (@mkState Sample.models (Some j))).
  - reflexivity.
  - reflexivity.
Defined.


Lemma UpdateState_late_failure_witness :
  let j := Sample.J1 "running" in
  let flt := λ o, match o with
                  | OpRenameFile _ _ => Some (ErrIO "permission denied")
                  | _ => None
                  end in
  let w := mkWorld "/home/alice"
             {[ "jobs/alice/proj/l;J1;submitted" := "" ]} [] flt
             Sample.no_residue ∅ Sample.no_os_fault [] in
  ∃ w', UpdateState (Sample.facade j) w
          = Done (Some (gerrors_Wrap (ErrIO "permission denied"))) w' ∧
        files w' = <[JobFilepath j := "job_id: J1;running"]> (files w).
Proof.
  intros j flt w.
  apply (UpdateState_late_failure (Sample.facade j) w j).
  - reflexivity.
  - reflexivity.
  - reflexivity.
  - right. exists "jobs/alice/proj/l;J1;submitted", [].
    split; [reflexivity|]. split; [vm_compute; reflexivity|reflexivity].
Defined.

Lemma UpdateState_twice_witness :
  let j := Sample.J1 "running" in
  let w := Sample.tree {[ "jobs/alice/proj/l;J1;submitted" := "" ]} [] in
  ∃ w1 w2, UpdateState (Sample.facade j) w = Done None w1 ∧
           UpdateState (Sample.facade j) w1 = Done None w2 ∧
           files w2 = files w1 ∧
           issued w1 w2 =
             [EvStorage (OpPutFile (JobFilepath j) "job_id: J1;running");
              EvStorage (OpListFile (JobHeadFilepathPrefix j));
              EvStorage (OpRenameFile (JobHeadFilepath j)
                                      (JobHeadFilepath j))].
Proof.
  intros j w.
  apply (UpdateState_twice (Sample.facade j) w j "job_id: J1;running"
           "jobs/alice/proj/l;J1;submitted").
  - reflexivity.
  - reflexivity.
  - intros o. reflexivity.
  - reflexivity.
  - reflexivity.
  - vm_compute. reflexivity.
Defined.

Lemma UpdateState_adds_no_head_file_witness :
  let j := Sample.J1 "submitted" in
  let w := Sample.tree {[ "jobs/alice/proj/l;J1;running" := "r";
                          "jobs/alice/proj/l;J1;submitted" := "s" ]} [] in
  ∃ w', UpdateState (Sample.facade j) w = Done None w' ∧
        (∀ x, x ∈ listing (files w') (JobHeadFilepathPrefix j) →
              x = JobHeadFilepath j ∨
              x ∈ ["jobs/alice/proj/l;J1;submitted"]) ∧
        length (listing (files w') (JobHeadFilepathPrefix j)) ≤ 2 ∧
        ("jobs/alice/proj/l;J1;running" ≠ JobHeadFilepath j →
         "jobs/alice/proj/l;J1;running"
           ∉ listing (files w') (JobHeadFilepathPrefix j)).
Proof.
  intros j w.
  apply (UpdateState_adds_no_head_file (Sample.facade j) w j
           "job_id: J1;submitted" "jobs/alice/proj/l;J1;running"
           ["jobs/alice/proj/l;J1;submitted"]).
  - reflexivity.
  - reflexivity.
  - intros o. reflexivity.
  - reflexivity.
  - vm_compute. reflexivity.
Defined.

Lemma Secrets_values_are_key_paths_witness :
  collect_secrets (Sample.J1 "running") [mkDirEntry "l;TOKEN" false]
    !! "TOKEN" = Some "github.com:22/alice/proj/TOKEN" ∧
  "github.com:22/alice/proj/TOKEN"
    = RepoHostNameWithPort (Sample.J1 "running") +:+ "/"
      +:+ RepoUserName (Sample.J1 "running") +:+ "/"
      +:+ RepoName (Sample.J1 "running") +:+ "/" +:+ "TOKEN".
Proof.
  assert (Hv : collect_secrets (Sample.J1 "running")
                 [mkDirEntry "l;TOKEN" false] !! "TOKEN"
               = Some "github.com:22/alice/proj/TOKEN")
    by (vm_compute; reflexivity).
  split; [exact Hv|].
  exact (Secrets_values_are_key_paths (H := Sample.models)
           (Sample.J1 "running")
           [mkDirEntry "l;TOKEN" false] "TOKEN"
           "github.com:22/alice/proj/TOKEN" Hv).
Defined.

Lemma Secrets_key_of_plain_name_witness :
  collect_secrets (Sample.J1 "running")
    [mkDirEntry "other" false; mkDirEntry "l;TOKEN" false] !! "TOKEN"
  = Some (RepoHostNameWithPort (Sample.J1 "running") +:+ "/"
          +:+ RepoUserName (Sample.J1 "running") +:+ "/"
          +:+ RepoName (Sample.J1 "running") +:+ "/" +:+ "TOKEN").
Proof.
  apply (Secrets_key_of_plain_name (H := Sample.models) (Sample.J1 "running")
           [mkDirEntry "other" false; mkDirEntry "l;TOKEN" false] "TOKEN").
  - apply list_elem_of_In. simpl. right. left. reflexivity.
  - reflexivity.
Defined.

Lemma Secrets_readdir_failure_witness :
  let j := Sample.J1 "running" in
  let flt := λ o, match o with
                  | OsReadDir _ => Some (ErrIO "permission denied")
                  | _ => None
                  end in
  let w := Sample.on_disk {[ Sample.secrets_path := Directory [] ]} flt in
  ∃ w', Secrets (Sample.facade j) w
          = Done (None, Some (gerrors_Wrap (ErrIO "permission denied"))) w' ∧
        issued w w'
          = [EvOs (OsStat (secrets_dir (path (Sample.facade j)) j));
             EvOs (OsReadDir (secrets_dir (path (Sample.facade j)) j))].
Proof.
  intros j flt w.
  apply (Secrets_readdir_failure (Sample.facade j) w j (Directory [])).
  - reflexivity.
  - reflexivity.
  - vm_compute. reflexivity.
  - reflexivity.
Defined.

Lemma Secrets_returns_store_answer_witness :
  let j := Sample.J1 "running" in
  let entries := [mkDirEntry "l;TOKEN" false; mkDirEntry "skip" true] in
  let w := Sample.on_disk {[ Sample.secrets_path := Directory entries ]}
                          Sample.no_os_fault in
  ∃ w', Secrets (Sample.facade j) w
          = Done (fetchSecret (cliSecret (Sample.facade j))
                    (secrets_template j) (collect_secrets j entries) w') w' ∧
        issued w w'
          = [EvOs (OsStat (secrets_dir (path (Sample.facade j)) j));
             EvOs (OsReadDir (secrets_dir (path (Sample.facade j)) j));
             EvFetchSecret (secrets_template j) (collect_secrets j entries)].
Proof.
  intros j entries w.
  apply (Secrets_returns_store_answer (Sample.facade j) w j entries).
  - reflexivity.
  - reflexivity.
  - reflexivity.
  - vm_compute. reflexivity.
Defined.
